(** * ct_moniteur.binary_reader: the cursor reader, embedded and verified

    A shallow embedding of [src/ct_moniteur/binary_reader.py].  The reader is
    a Python object with one mutable attribute ([_offset]); its methods either
    return a value or raise, and a raise does not roll back an assignment made
    before it.  Methods are therefore functions from the reader to a result
    together with the reader as the call leaves it. *)

From Stdlib Require Import ZArith List Bool Lia.
From Stdlib Require Strings.Byte.
Import Init.Byte.
Import ListNotations.

Local Open Scope Z_scope.

(** ** The Python built-ins the module relies on *)

Module Py.

(** [len(x)], as a Python integer. *)
Definition len {A : Type} (l : list A) : Z := Z.of_nat (length l).

(** The integer held by one element of a [bytes] / [memoryview]. *)
Definition byte_val (b : byte) : Z := Z.of_N (Byte.to_N b).

(** The inverse direction, used when a C [unsigned char] is stored. *)
Definition byte_of (z : Z) : byte :=
  match Byte.of_N (Z.to_N z) with
  | Some b => b
  | None => x00
  end.

(** A slice bound brought into [0 .. n] the way [PySlice_AdjustIndices]
    does for a step of 1: a negative bound counts from the end, and what
    still falls outside is clamped. *)
Definition adjust_index (i n : Z) : Z :=
  if i <? 0 then
    (if i + n <? 0 then 0 else i + n)
  else if n <=? i then n
  else i.

(** [l[start:stop]]. *)
Definition slice {A : Type} (l : list A) (start stop : Z) : list A :=
  let n := len l in
  let start' := adjust_index start n in
  let stop' := adjust_index stop n in
  if start' <? stop' then
    firstn (Z.to_nat (stop' - start')) (skipn (Z.to_nat start') l)
  else [].

(** [l[i]]; [None] stands for [IndexError]. *)
Definition getitem {A : Type} (l : list A) (i : Z) : option A :=
  let i' := if i <? 0 then i + len l else i in
  if (i' <? 0) || (len l <=? i') then None
  else nth_error l (Z.to_nat i').

(** The byte loop of [_PyLong_FromByteArray]: it walks the bytes from the
    least significant one, complements them on the fly (with a carry) when
    the number is negative, and ORs each into the accumulator at the next
    bit position.  The result is the magnitude. *)
Fixpoint from_byte_array_loop (p : list byte) (is_signed : bool)
    (carrybit accum accumbits : Z) : Z :=
  match p with
  | [] => accum
  | b :: p' =>
      let thisbyte := byte_val b in
      if is_signed then
        let thisbyte := Z.lxor 255 thisbyte + carrybit in
        let carrybit := Z.shiftr thisbyte 8 in
        let thisbyte := Z.land thisbyte 255 in
        from_byte_array_loop p' is_signed carrybit
          (Z.lor accum (Z.shiftl thisbyte accumbits)) (accumbits + 8)
      else
        from_byte_array_loop p' is_signed carrybit
          (Z.lor accum (Z.shiftl thisbyte accumbits)) (accumbits + 8)
  end.

Inductive byteorder := big | little.

(** [int.from_bytes(bytes, byteorder=..., signed=...)].  The sign is read
    off the most significant byte; the trimming of leading padding bytes
    that CPython does before the loop only saves work and is left out. *)
Definition from_bytes (bytes : list byte) (order : byteorder)
    (signed : bool) : Z :=
  match bytes with
  | [] => 0
  | _ :: _ =>
      let lsb_first :=
        match order with
        | little => bytes
        | big => rev bytes
        end in
      let is_signed := signed && (128 <=? byte_val (last lsb_first x00)) in
      let magnitude := from_byte_array_loop lsb_first is_signed 1 0 0 in
      if is_signed then - magnitude else magnitude
  end.

(** The byte loop of [_PyLong_AsByteArray] for a non-negative number:
    the low byte is stored and the accumulator shifted, [n] times. *)
Fixpoint as_byte_array_loop (accum : Z) (n : nat) : list byte :=
  match n with
  | O => []
  | S n' => byte_of (Z.land accum 255) :: as_byte_array_loop (Z.shiftr accum 8) n'
  end.

(** [v.to_bytes(length, byteorder)] (unsigned); [None] stands for
    [OverflowError]. *)
Definition to_bytes (v : Z) (length : nat) (order : byteorder)
    : option (list byte) :=
  if (v <? 0) || (2 ^ (8 * Z.of_nat length) <=? v) then None
  else
    let lsb_first := as_byte_array_loop v length in
    Some (match order with
          | little => lsb_first
          | big => rev lsb_first
          end).

End Py.

(** ** The module's enumerations *)

Inductive DataType := UINT | INT | BOOL | BYTES.

Inductive Endianness := BIG | LITTLE.

(** [Endianness.value], as handed to [int.from_bytes]. *)
Definition Endianness_value (e : Endianness) : Py.byteorder :=
  match e with
  | BIG => Py.big
  | LITTLE => Py.little
  end.

(** ** Exceptions

    Every [raise] of the module is a [ValueError]; the sites differ by their
    message, kept here with the values formatted into it.  [IndexError] is
    what indexing an empty view raises. *)

Inductive Message :=
| SizeMustBePositive (size : Z)
| CannotRead (size offset len : Z)
| BoolMustBe1Byte (size : Z)
| CannotSkip (count offset len : Z)
| InvalidSeekOffset (offset len : Z)
| CannotPeek (size offset len : Z).

Inductive Exception :=
| ValueError (msg : Message)
| IndexError.

(** The three error kinds the specification speaks of, and the kind each
    raise site belongs to. *)
Inductive ErrorKind := InvalidSize | OutOfBounds | InvalidOffset.

Definition error_kind (e : Exception) : option ErrorKind :=
  match e with
  | ValueError (SizeMustBePositive _) => Some InvalidSize
  | ValueError (BoolMustBe1Byte _) => Some InvalidSize
  | ValueError (CannotRead _ _ _) => Some OutOfBounds
  | ValueError (CannotSkip _ _ _) => Some OutOfBounds
  | ValueError (CannotPeek _ _ _) => Some OutOfBounds
  | ValueError (InvalidSeekOffset _ _) => Some InvalidOffset
  | IndexError => None
  end.

(** ** The reader object *)

Record BinaryReader := mkReader {
  _data : list byte;
  _offset : Z;
  _endianness : Endianness
}.

(** What [read] returns: [int], [bool] or [bytes]. *)
Inductive Value :=
| VInt (n : Z)
| VBool (b : bool)
| VBytes (bs : list byte).

(** A method body: it runs on the object and leaves a result and the
    object.  A raise keeps whatever was assigned before it. *)
Inductive Result (A : Type) :=
| Return (a : A)
| Raise (e : Exception).
Arguments Return {A} a.
Arguments Raise {A} e.

Definition M (A : Type) : Type := BinaryReader -> Result A * BinaryReader.

Definition ret {A : Type} (a : A) : M A := fun self => (Return a, self).

Definition raise {A : Type} (e : Exception) : M A := fun self => (Raise e, self).

Definition bind {A B : Type} (m : M A) (k : A -> M B) : M B :=
  fun self =>
    match m self with
    | (Return a, self') => k a self'
    | (Raise e, self') => (Raise e, self')
    end.

Definition get_self : M BinaryReader := fun self => (Return self, self).

(** [self._offset = o]. *)
Definition set_offset (o : Z) : M unit :=
  fun self => (Return tt, mkReader (_data self) o (_endianness self)).

Declare Scope reader_scope.
Delimit Scope reader_scope with reader.
Notation "x <- m ;; k" := (bind m (fun x => k))
  (at level 61, m at next level, right associativity) : reader_scope.
Notation "m ;; k" := (bind m (fun _ => k))
  (at level 61, right associativity) : reader_scope.
Local Open Scope reader_scope.

(** The same reader with its cursor at [o]. *)
Definition moved (self : BinaryReader) (o : Z) : BinaryReader :=
  mkReader (_data self) o (_endianness self).

(** [__init__]. *)
Definition new (data : list byte) (endianness : Endianness) : BinaryReader :=
  mkReader data 0 endianness.

(** The properties. *)
Definition offset (self : BinaryReader) : Z := _offset self.

Definition remaining (self : BinaryReader) : Z :=
  Py.len (_data self) - _offset self.

Definition size (self : BinaryReader) : Z := Py.len (_data self).

Definition has_bytes (count : Z) (self : BinaryReader) : bool :=
  _offset self + count <=? Py.len (_data self).

(** [read].  The enumeration has four members, so the final [else] of the
    source (unknown data type) has no case here. *)
Definition read (data_type : DataType) (size : Z) : M Value :=
  self <- get_self ;;
  if size <=? 0 then
    raise (ValueError (SizeMustBePositive size))
  else if negb (has_bytes size self) then
    raise (ValueError (CannotRead size (_offset self) (Py.len (_data self))))
  else
    let data_view := Py.slice (_data self) (_offset self) (_offset self + size) in
    set_offset (_offset self + size) ;;
    match data_type with
    | BYTES => ret (VBytes data_view)
    | BOOL =>
        if negb (size =? 1) then
          raise (ValueError (BoolMustBe1Byte size))
        else
          match Py.getitem data_view 0 with
          | Some b => ret (VBool (negb (Py.byte_val b =? 0)))
          | None => raise IndexError
          end
    | UINT =>
        ret (VInt (Py.from_bytes data_view
                     (Endianness_value (_endianness self)) false))
    | INT =>
        ret (VInt (Py.from_bytes data_view
                     (Endianness_value (_endianness self)) true))
    end.

(** [skip]. *)
Definition skip (count : Z) : M unit :=
  self <- get_self ;;
  if negb (has_bytes count self) then
    raise (ValueError (CannotSkip count (_offset self) (Py.len (_data self))))
  else
    set_offset (_offset self + count).

(** [seek]. *)
Definition seek (offset : Z) : M unit :=
  self <- get_self ;;
  if (offset <? 0) || (Py.len (_data self) <? offset) then
    raise (ValueError (InvalidSeekOffset offset (Py.len (_data self))))
  else
    set_offset offset.

(** [peek]. *)
Definition peek (size : Z) : M (list byte) :=
  self <- get_self ;;
  if negb (has_bytes size self) then
    raise (ValueError (CannotPeek size (_offset self) (Py.len (_data self))))
  else
    ret (Py.slice (_data self) (_offset self) (_offset self + size)).

(** ** Sequences of mutating calls

    A caller that handles each exception and goes on with the same reader. *)

Inductive Call :=
| CallRead (data_type : DataType) (size : Z)
| CallSkip (count : Z)
| CallSeek (offset : Z).

(** The reader one call leaves behind, whether it returned or raised. *)
Definition after (c : Call) (self : BinaryReader) : BinaryReader :=
  match c with
  | CallRead data_type size => snd (read data_type size self)
  | CallSkip count => snd (skip count self)
  | CallSeek offset => snd (seek offset self)
  end.

(** Whether the call raised. *)
Definition raises (c : Call) (self : BinaryReader) : bool :=
  match c with
  | CallRead data_type size =>
      match fst (read data_type size self) with Raise _ => true | Return _ => false end
  | CallSkip count =>
      match fst (skip count self) with Raise _ => true | Return _ => false end
  | CallSeek offset =>
      match fst (seek offset self) with Raise _ => true | Return _ => false end
  end.

Definition run (calls : list Call) (self : BinaryReader) : BinaryReader :=
  fold_left (fun r c => after c r) calls self.

(** Whether [peek] raised. *)
Definition raises_peek (n : Z) (self : BinaryReader) : bool :=
  match fst (peek n self) with Raise _ => true | Return _ => false end.

(** A call that does not ask [skip] to go backwards. *)
Definition forward_call (c : Call) : Prop :=
  match c with
  | CallSkip count => 0 <= count
  | CallRead _ _ | CallSeek _ => True
  end.

(** The cursor invariant of the data model. *)
Definition offset_in_bounds (self : BinaryReader) : Prop :=
  0 <= offset self <= size self.

(** ** Reference readings of a byte string as a number

    Positional values, written without reference to the decoding loop. *)

(** Least significant byte first. *)
Fixpoint le_value (bs : list byte) : Z :=
  match bs with
  | [] => 0
  | b :: bs' => Py.byte_val b + 256 * le_value bs'
  end.

(** Most significant byte first: each further byte shifts what was read so
    far by one byte. *)
Definition be_value (bs : list byte) : Z :=
  fold_left (fun acc b => 256 * acc + Py.byte_val b) bs 0.

Definition unsigned_value (e : Endianness) (bs : list byte) : Z :=
  match e with
  | BIG => be_value bs
  | LITTLE => le_value bs
  end.

(** Two's complement reading of an unsigned [u] over [bits] bits. *)
Definition twos_complement (bits u : Z) : Z :=
  if u <? 2 ^ (bits - 1) then u else u - 2 ^ bits.

(** The bytes of the buffer from [o], [n] of them. *)
Definition bytes_at (data : list byte) (o n : Z) : list byte :=
  firstn (Z.to_nat n) (skipn (Z.to_nat o) data).

(** ** The command line: what one certificate entry prints

    [process_certificate], the callback defined inside [main] of [cli.py].
    It closes over the parsed arguments and talks to [sys.stdout]; here it
    returns the calls it makes on [sys.stdout], in order. *)

From Stdlib Require String Ascii.

Module Cli.

Import Ascii String.
Local Open Scope string_scope.

(** The flags [argparse] fills in. *)
Record Namespace := mkNamespace {
  domains_only : bool;
  json : bool;
  verbose : bool
}.

Inductive StdoutCall :=
| write (s : string)
| flush.

Definition newline : string := String "010"%char EmptyString.

Section ProcessCertificate.

(** The entry class and the library calls are not in these sources.  The
    entry is any type that has its [domains]; what the libraries render is
    taken as given:
    - [log_url]: [entry.source.log.url];
    - [dumps_domains]: [json.dumps] on the list of domains;
    - [dumps_entry]: [json.dumps(..., cls=DateTimeAwareEncoder)] on
      [asdict(entry)] without its ["certificate"] key;
    - [iso_time]: [datetime.fromtimestamp(entry.timestamp / 1000.0).isoformat()]. *)
Variable Entry : Type.
Variable domains : Entry -> list string.
Variable log_url : Entry -> string.
Variable dumps_domains : list string -> string.
Variable dumps_entry : Entry -> string.
Variable iso_time : Entry -> string.

Variable args : Namespace.

Definition process_certificate (entry : Entry) : list StdoutCall :=
  if domains_only args then
    if json args then
      [write (dumps_domains (domains entry) ++ newline); flush]
    else
      List.app
        (List.map (fun domain => write (domain ++ newline)) (domains entry))
        [flush]
  else if json args then
    [flush; write (dumps_entry entry ++ newline); flush]
  else
    let payload :=
      ("[" ++ iso_time entry ++ "]") ++ " " ++ log_url entry
      ++ " - [" ++ String.concat ", " (domains entry) ++ "]" ++ newline in
    [write payload; flush].

End ProcessCertificate.

(** Everything a run of calls wrote, as one text. *)
Fixpoint stdout_text (calls : list StdoutCall) : string :=
  match calls with
  | [] => EmptyString
  | write s :: calls' => s ++ stdout_text calls'
  | flush :: calls' => stdout_text calls'
  end.

Definition writes (calls : list StdoutCall) : nat :=
  List.length (List.filter (fun c => match c with write _ => true | flush => false end)
                 calls).

Fixpoint has_newline (s : string) : bool :=
  match s with
  | EmptyString => false
  | String c s' => Ascii.eqb c "010"%char || has_newline s'
  end.

(** The lines of a text as a reader taking it line by line gets them:
    [cur] is the line being read, and each newline ends one. *)
Fixpoint lines_from (cur : string) (s : string) : list string :=
  match s with
  | EmptyString => []
  | String c s' =>
      if Ascii.eqb c "010"%char then cur :: lines_from EmptyString s'
      else lines_from (cur ++ String c EmptyString) s'
  end.

Definition lines (s : string) : list string := lines_from EmptyString s.

End Cli.

(** * Proofs *)

(** ** Bytes and bit arithmetic *)

Section ByteFacts.

Lemma byte_val_range (b : byte) : 0 <= Py.byte_val b <= 255.
Proof.
  unfold Py.byte_val.
  pose proof (Byte.to_N_bounded b) as Hb.
  lia.
Qed.

Lemma byte_of_val (b : byte) : Py.byte_of (Py.byte_val b) = b.
Proof.
  unfold Py.byte_of, Py.byte_val.
  rewrite N2Z.id, Byte.of_to_N.
  reflexivity.
Qed.

Lemma lxor_255_byte (b : byte) : Z.lxor 255 (Py.byte_val b) = 255 - Py.byte_val b.
Proof. destruct b; reflexivity. Qed.

Lemma land_255 (a : Z) : Z.land a 255 = a mod 256.
Proof. change 255 with (Z.ones 8). rewrite Z.land_ones by lia. reflexivity. Qed.

Lemma shiftr_8 (a : Z) : Z.shiftr a 8 = a / 256.
Proof. rewrite Z.shiftr_div_pow2 by lia. reflexivity. Qed.

(** ORing a value in above an accumulator that is entirely below the
    shift is an addition. *)
Lemma lor_shiftl_add (accum t k : Z) :
  0 <= k -> 0 <= accum < 2 ^ k ->
  Z.lor accum (Z.shiftl t k) = accum + 2 ^ k * t.
Proof.
  intros Hk Hacc.
  rewrite Z.shiftl_mul_pow2 by exact Hk.
  assert (Hdisj : Z.land accum (t * 2 ^ k) = 0).
  { apply Z.bits_inj'. intros n Hn.
    rewrite Z.land_spec, Z.bits_0.
    destruct (Z_lt_le_dec n k) as [Hlt | Hge].
    - rewrite Z.mul_pow2_bits_low by exact Hlt.
      apply andb_false_r.
    - rewrite <- (Z.mod_small accum (2 ^ k)) by exact Hacc.
      rewrite Z.mod_pow2_bits_high by lia.
      reflexivity. }
  rewrite <- Z.lxor_lor by exact Hdisj.
  rewrite <- Z.add_nocarry_lxor by exact Hdisj.
  lia.
Qed.

Lemma pow256_pos (n : nat) : 0 < 256 ^ Z.of_nat n.
Proof. apply Z.pow_pos_nonneg; lia. Qed.

Lemma pow256_succ (n : nat) : 256 ^ Z.of_nat (S n) = 256 * 256 ^ Z.of_nat n.
Proof. rewrite Nat2Z.inj_succ, Z.pow_succ_r by lia. reflexivity. Qed.

Lemma pow2_8n (n : nat) : 2 ^ (8 * Z.of_nat n) = 256 ^ Z.of_nat n.
Proof. rewrite Z.pow_mul_r by lia. reflexivity. Qed.

End ByteFacts.

(** ** The reference readings *)

Section Values.

Lemma le_value_range (bs : list byte) :
  0 <= le_value bs < 256 ^ Z.of_nat (length bs).
Proof.
  induction bs as [| b bs IH].
  - simpl. lia.
  - cbn [le_value length]. rewrite pow256_succ.
    pose proof (byte_val_range b). lia.
Qed.

Lemma le_value_app (xs ys : list byte) :
  le_value (xs ++ ys) = le_value xs + 256 ^ Z.of_nat (length xs) * le_value ys.
Proof.
  induction xs as [| x xs IH].
  - cbn [app le_value length]. change (Z.of_nat 0) with 0.
    rewrite Z.pow_0_r. lia.
  - cbn [app le_value length]. rewrite IH, pow256_succ. ring.
Qed.

(** Reading most significant byte first is reading the reversed string
    least significant byte first. *)
Lemma be_value_rev (bs : list byte) : be_value bs = le_value (rev bs).
Proof.
  unfold be_value.
  induction bs as [| b bs IH] using rev_ind.
  - reflexivity.
  - rewrite fold_left_app, rev_app_distr. cbn [fold_left rev app le_value].
    rewrite IH. lia.
Qed.

Lemma be_value_range (bs : list byte) :
  0 <= be_value bs < 256 ^ Z.of_nat (length bs).
Proof.
  rewrite be_value_rev, <- length_rev. apply le_value_range.
Qed.

(** The most significant byte carries the top eight bits. *)
Lemma le_value_last (bs : list byte) :
  bs <> [] ->
  exists lo,
    0 <= lo < 256 ^ (Z.of_nat (length bs) - 1) /\
    le_value bs = lo + 256 ^ (Z.of_nat (length bs) - 1) * Py.byte_val (last bs x00).
Proof.
  intros Hne.
  destruct (exists_last Hne) as (front & msb & ->).
  rewrite last_last, le_value_app, length_app. cbn [length le_value].
  replace (Z.of_nat (length front + 1) - 1)
    with (Z.of_nat (length front)) by lia.
  exists (le_value front). split.
  - apply le_value_range.
  - lia.
Qed.

End Values.

(** ** [int.from_bytes] and [int.to_bytes] *)

Section FromBytes.

(** Without a sign the loop adds the bytes up at their positions. *)
Lemma from_byte_array_loop_unsigned (p : list byte) :
  forall carrybit accum accumbits,
    0 <= accumbits -> 0 <= accum < 2 ^ accumbits ->
    Py.from_byte_array_loop p false carrybit accum accumbits
    = accum + 2 ^ accumbits * le_value p.
Proof.
  induction p as [| b p IH]; intros carrybit accum accumbits Hk Hacc.
  - cbn [Py.from_byte_array_loop le_value]. lia.
  - cbn [Py.from_byte_array_loop le_value].
    pose proof (byte_val_range b) as Hb.
    rewrite lor_shiftl_add by assumption.
    assert (Hpow : 2 ^ (accumbits + 8) = 2 ^ accumbits * 256).
    { rewrite Z.pow_add_r by lia. reflexivity. }
    rewrite IH.
    + rewrite Hpow. ring.
    + lia.
    + rewrite Hpow. nia.
Qed.

(** With a sign the loop builds, byte by byte, the complement of the
    string plus the incoming carry; what does not fit leaves as the
    outgoing carry. *)
Lemma from_byte_array_loop_signed (p : list byte) :
  forall carrybit accum accumbits,
    0 <= accumbits -> 0 <= accum < 2 ^ accumbits -> 0 <= carrybit <= 1 ->
    exists m carry_out,
      Py.from_byte_array_loop p true carrybit accum accumbits
      = accum + 2 ^ accumbits * m /\
      0 <= m < 256 ^ Z.of_nat (length p) /\
      0 <= carry_out <= 1 /\
      m + 256 ^ Z.of_nat (length p) * carry_out
      = 256 ^ Z.of_nat (length p) - 1 - le_value p + carrybit.
Proof.
  induction p as [| b p IH]; intros carrybit accum accumbits Hk Hacc Hc.
  - exists 0, carrybit. cbn [Py.from_byte_array_loop le_value length].
    change (Z.of_nat 0) with 0. rewrite Z.pow_0_r. lia.
  - cbn [Py.from_byte_array_loop le_value length].
    pose proof (byte_val_range b) as Hb.
    rewrite lxor_255_byte, shiftr_8, land_255.
    set (t := 255 - Py.byte_val b + carrybit).
    assert (Ht : 0 <= t <= 256) by (unfold t; lia).
    pose proof (Z.mod_pos_bound t 256 ltac:(lia)) as Hmod.
    pose proof (Z.div_mod t 256 ltac:(lia)) as Hdm.
    assert (Hq : 0 <= t / 256 <= 1).
    { split.
      - apply Z.div_pos; lia.
      - apply Z.div_le_upper_bound; lia. }
    rewrite lor_shiftl_add by assumption.
    assert (Hpow : 2 ^ (accumbits + 8) = 2 ^ accumbits * 256).
    { rewrite Z.pow_add_r by lia. reflexivity. }
    destruct (IH (t / 256) (accum + 2 ^ accumbits * (t mod 256)) (accumbits + 8))
      as (m & carry_out & Hloop & Hm & Hco & Hsum).
    + lia.
    + rewrite Hpow. nia.
    + exact Hq.
    + exists (t mod 256 + 256 * m), carry_out.
      rewrite Hloop, Hpow, pow256_succ.
      repeat split; lia.
Qed.

Lemma lsb_first_value (e : Endianness) (bs : list byte) :
  le_value (match Endianness_value e with
            | Py.little => bs
            | Py.big => rev bs
            end)
  = unsigned_value e bs.
Proof.
  destruct e; cbn [Endianness_value unsigned_value].
  - symmetry. apply be_value_rev.
  - reflexivity.
Qed.

Lemma lsb_first_length (e : Endianness) (bs : list byte) :
  length (match Endianness_value e with
          | Py.little => bs
          | Py.big => rev bs
          end)
  = length bs.
Proof. destruct e; cbn [Endianness_value]; [apply length_rev | reflexivity]. Qed.

Lemma unsigned_value_range (e : Endianness) (bs : list byte) :
  0 <= unsigned_value e bs < 256 ^ Z.of_nat (length bs).
Proof.
  destruct e; cbn [unsigned_value]; [apply be_value_range | apply le_value_range].
Qed.

(** [signed=False]: the value is the positional reading in the given
    byte order. *)
Lemma from_bytes_unsigned (e : Endianness) (bs : list byte) :
  Py.from_bytes bs (Endianness_value e) false = unsigned_value e bs.
Proof.
  unfold Py.from_bytes.
  destruct bs as [| b bs'].
  - destruct e; reflexivity.
  - cbn [andb].
    rewrite from_byte_array_loop_unsigned by (simpl; lia).
    rewrite lsb_first_value. simpl (2 ^ 0). lia.
Qed.

(** [signed=True]: the unsigned value, read as two's complement over all
    the bits of the string. *)
Lemma from_bytes_signed (e : Endianness) (bs : list byte) :
  bs <> [] ->
  Py.from_bytes bs (Endianness_value e) true
  = twos_complement (8 * Py.len bs) (unsigned_value e bs).
Proof.
  intros Hne.
  unfold Py.from_bytes.
  destruct bs as [| b0 bs0] eqn:Hbs; [congruence |].
  rewrite <- Hbs in *. clear Hbs b0 bs0.
  cbn [andb].
  set (p := match Endianness_value e with
            | Py.little => bs
            | Py.big => rev bs
            end).
  assert (Hlen : length p = length bs) by apply lsb_first_length.
  assert (Hval : le_value p = unsigned_value e bs) by apply lsb_first_value.
  assert (Hp : p <> []).
  { intros Hnil. rewrite Hnil in Hlen. destruct bs; [congruence | discriminate]. }
  destruct (le_value_last p Hp) as (lo & Hlo & Hsplit).
  pose proof (byte_val_range (last p x00)) as Hmsb.
  rewrite Hlen in Hlo, Hsplit. rewrite Hval in Hsplit.
  assert (Hn : 1 <= Z.of_nat (length bs)).
  { destruct bs; [congruence | cbn [length]; lia]. }
  set (n := Z.of_nat (length bs)) in *.
  assert (Hhalf : 2 ^ (8 * n - 1) = 128 * 256 ^ (n - 1)).
  { replace (8 * n - 1) with (7 + 8 * (n - 1)) by lia.
    rewrite Z.pow_add_r, Z.pow_mul_r by lia. reflexivity. }
  assert (Hfull : 2 ^ (8 * n) = 256 ^ n).
  { rewrite Z.pow_mul_r by lia. reflexivity. }
  assert (Hstep : 256 ^ n = 256 * 256 ^ (n - 1)).
  { replace n with (Z.succ (n - 1)) at 1 by lia.
    rewrite Z.pow_succ_r by lia. reflexivity. }
  assert (Hpos : 0 < 256 ^ (n - 1)) by (apply Z.pow_pos_nonneg; lia).
  unfold twos_complement, Py.len. fold n.
  rewrite Hhalf, Hfull.
  destruct (128 <=? Py.byte_val (last p x00)) eqn:Hsign.
  - apply Z.leb_le in Hsign.
    assert (Hzero : 0 <= 0 < 2 ^ 0) by (simpl; lia).
    destruct (from_byte_array_loop_signed p 1 0 0 (Z.le_refl 0) Hzero)
      as (m & carry_out & Hloop & Hm & Hco & Hsum); [lia |].
    rewrite Hloop. rewrite Hlen in Hm, Hsum. fold n in Hm, Hsum.
    rewrite Hval in Hsum.
    assert (Hbig : 128 * 256 ^ (n - 1) <= unsigned_value e bs) by nia.
    destruct (unsigned_value e bs <? 128 * 256 ^ (n - 1)) eqn:Hcmp.
    + apply Z.ltb_lt in Hcmp. lia.
    + assert (carry_out = 0) by nia.
      subst carry_out. simpl (2 ^ 0). lia.
  - apply Z.leb_gt in Hsign.
    rewrite from_byte_array_loop_unsigned by (simpl; lia).
    rewrite Hval.
    assert (Hsmall : unsigned_value e bs < 128 * 256 ^ (n - 1)) by nia.
    destruct (unsigned_value e bs <? 128 * 256 ^ (n - 1)) eqn:Hcmp.
    + simpl (2 ^ 0). lia.
    + apply Z.ltb_ge in Hcmp. lia.
Qed.

End FromBytes.

Section ToBytes.

(** Storing the bytes of a positional value gives the string back. *)
Lemma as_byte_array_loop_le_value (p : list byte) :
  Py.as_byte_array_loop (le_value p) (length p) = p.
Proof.
  induction p as [| b p IH].
  - reflexivity.
  - cbn [Py.as_byte_array_loop le_value length].
    pose proof (byte_val_range b) as Hb.
    rewrite land_255, shiftr_8.
    replace ((Py.byte_val b + 256 * le_value p) mod 256) with (Py.byte_val b).
    + replace ((Py.byte_val b + 256 * le_value p) / 256) with (le_value p).
      * rewrite byte_of_val, IH. reflexivity.
      * apply Z.div_unique with (r := Py.byte_val b); lia.
    + apply Z.mod_unique with (q := le_value p); lia.
Qed.

(** Re-encoding what [from_bytes] decoded, in the same order and over as
    many bytes, is the identity. *)
Lemma to_bytes_unsigned_value (e : Endianness) (bs : list byte) :
  Py.to_bytes (unsigned_value e bs) (length bs) (Endianness_value e) = Some bs.
Proof.
  unfold Py.to_bytes.
  pose proof (unsigned_value_range e bs) as Hr.
  rewrite pow2_8n.
  replace (unsigned_value e bs <? 0) with false by (symmetry; apply Z.ltb_ge; lia).
  replace (256 ^ Z.of_nat (length bs) <=? unsigned_value e bs) with false
    by (symmetry; apply Z.leb_gt; lia).
  cbn [orb].
  destruct e; cbn [Endianness_value unsigned_value].
  - rewrite be_value_rev, <- (length_rev bs), as_byte_array_loop_le_value.
    rewrite rev_involutive. reflexivity.
  - rewrite as_byte_array_loop_le_value. reflexivity.
Qed.

End ToBytes.

(** ** Slices of the buffer *)

Section Slices.

Context {A : Type}.

Lemma adjust_index_in_range (i n : Z) :
  0 <= i <= n -> Py.adjust_index i n = i.
Proof.
  intros Hi. unfold Py.adjust_index.
  destruct (i <? 0) eqn:Hneg; [apply Z.ltb_lt in Hneg; lia |].
  destruct (n <=? i) eqn:Hge; [apply Z.leb_le in Hge; lia | reflexivity].
Qed.

(** Inside the buffer a slice is the plain run of elements. *)
Lemma slice_in_range (l : list A) (o n : Z) :
  0 <= o -> 0 <= n -> o + n <= Py.len l ->
  Py.slice l o (o + n) = firstn (Z.to_nat n) (skipn (Z.to_nat o) l).
Proof.
  intros Ho Hn Hend. unfold Py.slice.
  rewrite !adjust_index_in_range by lia.
  replace (o + n - o) with n by lia.
  destruct (o <? o + n) eqn:Hlt; [reflexivity |].
  apply Z.ltb_ge in Hlt.
  replace n with 0 by lia. reflexivity.
Qed.

Lemma run_length (l : list A) (o n : Z) :
  0 <= o -> 0 <= n -> o + n <= Py.len l ->
  Py.len (firstn (Z.to_nat n) (skipn (Z.to_nat o) l)) = n.
Proof.
  intros Ho Hn Hend. unfold Py.len in *.
  rewrite length_firstn, length_skipn. lia.
Qed.

Lemma getitem_0 (x : A) (l : list A) : Py.getitem (x :: l) 0 = Some x.
Proof.
  unfold Py.getitem, Py.len. cbn [length].
  replace (0 <? 0) with false by reflexivity.
  replace (Z.of_nat (S (length l)) <=? 0) with false
    by (symmetry; apply Z.leb_gt; lia).
  reflexivity.
Qed.

End Slices.

Lemma bytes_at_length (data : list byte) (o n : Z) :
  0 <= o -> 0 <= n -> o + n <= Py.len data ->
  Py.len (bytes_at data o n) = n.
Proof. apply run_length. Qed.

Lemma slice_bytes_at (data : list byte) (o n : Z) :
  0 <= o -> 0 <= n -> o + n <= Py.len data ->
  Py.slice data o (o + n) = bytes_at data o n.
Proof. apply slice_in_range. Qed.

(** ** The methods, case by case *)

Section Methods.

Variable self : BinaryReader.

Lemma has_bytes_true (count : Z) :
  has_bytes count self = true <-> offset self + count <= size self.
Proof. unfold has_bytes, offset, size. apply Z.leb_le. Qed.

Lemma has_bytes_false (count : Z) :
  has_bytes count self = false <-> size self < offset self + count.
Proof. unfold has_bytes, offset, size. apply Z.leb_gt. Qed.

Lemma read_size_not_positive (data_type : DataType) (n : Z) :
  n <= 0 ->
  read data_type n self = (Raise (ValueError (SizeMustBePositive n)), self).
Proof.
  intros Hn. unfold read, bind, get_self, raise.
  replace (n <=? 0) with true by (symmetry; apply Z.leb_le; exact Hn).
  reflexivity.
Qed.

Lemma read_past_end (data_type : DataType) (n : Z) :
  0 < n -> has_bytes n self = false ->
  read data_type n self
  = (Raise (ValueError (CannotRead n (offset self) (size self))), self).
Proof.
  intros Hn Hhas. unfold read, bind, get_self, raise.
  replace (n <=? 0) with false by (symmetry; apply Z.leb_gt; exact Hn).
  rewrite Hhas. reflexivity.
Qed.

(** Past the two guards the cursor is moved first and the view decoded
    afterwards. *)
Lemma read_past_guards (data_type : DataType) (n : Z) :
  0 < n -> has_bytes n self = true ->
  read data_type n self
  = let data_view := Py.slice (_data self) (offset self) (offset self + n) in
    match data_type with
    | BYTES => (Return (VBytes data_view), moved self (offset self + n))
    | BOOL =>
        if n =? 1 then
          match Py.getitem data_view 0 with
          | Some b => (Return (VBool (negb (Py.byte_val b =? 0))),
                       moved self (offset self + n))
          | None => (Raise IndexError, moved self (offset self + n))
          end
        else (Raise (ValueError (BoolMustBe1Byte n)), moved self (offset self + n))
    | UINT =>
        (Return (VInt (Py.from_bytes data_view
                         (Endianness_value (_endianness self)) false)),
         moved self (offset self + n))
    | INT =>
        (Return (VInt (Py.from_bytes data_view
                         (Endianness_value (_endianness self)) true)),
         moved self (offset self + n))
    end.
Proof.
  intros Hn Hhas. unfold read, bind, get_self, set_offset, raise, ret, moved, offset.
  replace (n <=? 0) with false by (symmetry; apply Z.leb_gt; exact Hn).
  rewrite Hhas. cbn [negb fst snd].
  destruct data_type; try reflexivity.
  destruct (n =? 1); cbn [negb]; [| reflexivity].
  destruct (Py.getitem _ 0); reflexivity.
Qed.

Lemma skip_cases (count : Z) :
  skip count self
  = if has_bytes count self then (Return tt, moved self (offset self + count))
    else (Raise (ValueError (CannotSkip count (offset self) (size self))), self).
Proof.
  unfold skip, bind, get_self, set_offset, raise, moved, offset, size.
  destruct (has_bytes count self); reflexivity.
Qed.

Lemma seek_cases (target : Z) :
  seek target self
  = if (0 <=? target) && (target <=? size self) then (Return tt, moved self target)
    else (Raise (ValueError (InvalidSeekOffset target (size self))), self).
Proof.
  unfold seek, bind, get_self, set_offset, raise, moved, size.
  rewrite (Z.leb_antisym target 0), (Z.leb_antisym (Py.len (_data self)) target).
  rewrite <- negb_orb.
  destruct ((target <? 0) || (Py.len (_data self) <? target)); reflexivity.
Qed.

Lemma peek_cases (n : Z) :
  peek n self
  = if has_bytes n self
    then (Return (Py.slice (_data self) (offset self) (offset self + n)), self)
    else (Raise (ValueError (CannotPeek n (offset self) (size self))), self).
Proof.
  unfold peek, bind, get_self, raise, ret, offset, size.
  destruct (has_bytes n self); reflexivity.
Qed.

End Methods.

(** ** Where a raising call leaves the cursor *)

Section Failures.

Variable self : BinaryReader.

Lemma read_moves_past_guards (data_type : DataType) (n : Z) :
  0 < n -> has_bytes n self = true ->
  snd (read data_type n self) = moved self (offset self + n).
Proof.
  intros Hn Hhas. rewrite read_past_guards by assumption. cbv zeta.
  destruct data_type; try reflexivity.
  destruct (n =? 1); [| reflexivity].
  destruct (Py.getitem _ 0); reflexivity.
Qed.

(** [skip] raises before it assigns. *)
Lemma skip_raise_unchanged (count : Z) (e : Exception) (self' : BinaryReader) :
  skip count self = (Raise e, self') -> self' = self.
Proof.
  rewrite skip_cases. destruct (has_bytes count self); intros H; inversion H.
  reflexivity.
Qed.

(** So does [seek]. *)
Lemma seek_raise_unchanged (target : Z) (e : Exception) (self' : BinaryReader) :
  seek target self = (Raise e, self') -> self' = self.
Proof.
  rewrite seek_cases.
  destruct ((0 <=? target) && (target <=? size self)); intros H; inversion H.
  reflexivity.
Qed.

(** [read] raises before it assigns for every kind but [BOOL]. *)
Lemma read_raise_unchanged (data_type : DataType) (n : Z)
    (e : Exception) (self' : BinaryReader) :
  data_type <> BOOL ->
  read data_type n self = (Raise e, self') -> self' = self.
Proof.
  intros Hkind.
  destruct (Z_le_gt_dec n 0) as [Hn | Hn].
  - rewrite read_size_not_positive by exact Hn. intros H; inversion H. reflexivity.
  - destruct (has_bytes n self) eqn:Hhas.
    + rewrite read_past_guards by (assumption || lia). cbv zeta.
      destruct data_type; try congruence; intros H; inversion H.
    + rewrite read_past_end by (assumption || lia). intros H; inversion H.
      reflexivity.
Qed.

(** The two guards of [read] come before the assignment also for [BOOL];
    its own size check comes after. *)
Lemma read_bool_raise_offset (n : Z) (e : Exception) (self' : BinaryReader) :
  read BOOL n self = (Raise e, self') ->
  (self' = self /\ (n <= 0 \/ has_bytes n self = false)) \/
  (self' = moved self (offset self + n) /\ 0 < n /\ has_bytes n self = true).
Proof.
  destruct (Z_le_gt_dec n 0) as [Hn | Hn].
  - rewrite read_size_not_positive by exact Hn. intros H; inversion H. auto.
  - destruct (has_bytes n self) eqn:Hhas.
    + intros H. right.
      pose proof (read_moves_past_guards BOOL n ltac:(lia) Hhas) as Hsnd.
      rewrite H in Hsnd. cbn [snd] in Hsnd. repeat split; (assumption || lia).
    + rewrite read_past_end by (assumption || lia). intros H; inversion H. auto.
Qed.

(** Together: a call that raises leaves the reader as it was, unless it is
    a [BOOL] read that got past both guards. *)
Lemma raising_call_unchanged (c : Call) :
  raises c self = true ->
  (forall n, c = CallRead BOOL n -> n <= 0 \/ has_bytes n self = false) ->
  after c self = self.
Proof.
  intros Hraise Hbool.
  destruct c as [data_type n | count | target]; cbn [raises after] in *.
  - destruct (read data_type n self) as [[v | e] self'] eqn:Hread;
      cbn [fst snd] in *; [discriminate |].
    destruct data_type;
      try (eapply read_raise_unchanged; [| exact Hread]; discriminate).
    destruct (read_bool_raise_offset n e self' Hread)
      as [[Hsame _] | (_ & Hn & Hhas)]; [exact Hsame |].
    destruct (Hbool n eq_refl) as [Hle | Hno]; [lia | congruence].
  - destruct (skip count self) as [[v | e] self'] eqn:Hskip;
      cbn [fst snd] in *; [discriminate |].
    apply (skip_raise_unchanged count e). exact Hskip.
  - destruct (seek target self) as [[v | e] self'] eqn:Hseek;
      cbn [fst snd] in *; [discriminate |].
    apply (seek_raise_unchanged target e). exact Hseek.
Qed.

End Failures.

(** ** The cursor invariant along forward calls *)

Section Invariant.

Lemma moved_in_bounds (self : BinaryReader) (o : Z) :
  0 <= o <= size self -> offset_in_bounds (moved self o).
Proof. intros Ho. exact Ho. Qed.

Lemma after_forward_in_bounds (c : Call) (self : BinaryReader) :
  forward_call c -> offset_in_bounds self -> offset_in_bounds (after c self).
Proof.
  intros Hfwd Hinv. unfold offset_in_bounds in Hinv.
  destruct c as [data_type n | count | target]; cbn [after forward_call] in *.
  - destruct (Z_le_gt_dec n 0) as [Hn | Hn].
    + rewrite read_size_not_positive by exact Hn. exact Hinv.
    + destruct (has_bytes n self) eqn:Hhas.
      * rewrite read_moves_past_guards by (assumption || lia).
        apply has_bytes_true in Hhas. apply moved_in_bounds. lia.
      * rewrite read_past_end by (assumption || lia). exact Hinv.
  - rewrite skip_cases. destruct (has_bytes count self) eqn:Hhas.
    + apply has_bytes_true in Hhas. apply moved_in_bounds. lia.
    + exact Hinv.
  - rewrite seek_cases.
    destruct ((0 <=? target) && (target <=? size self)) eqn:Hrange.
    + apply andb_true_iff in Hrange. destruct Hrange as [Hlo Hhi].
      apply Z.leb_le in Hlo. apply Z.leb_le in Hhi.
      apply moved_in_bounds. lia.
    + exact Hinv.
Qed.

(** As long as no [skip] is asked to go backwards the cursor stays inside
    the buffer, whatever raises on the way. *)
Lemma run_forward_in_bounds (calls : list Call) :
  forall self,
    Forall forward_call calls -> offset_in_bounds self ->
    offset_in_bounds (run calls self).
Proof.
  induction calls as [| c calls IH]; intros self Hfwd Hinv.
  - exact Hinv.
  - inversion Hfwd as [| c' calls' Hc Hrest]; subst.
    cbn [run fold_left]. apply IH; [exact Hrest |].
    apply after_forward_in_bounds; assumption.
Qed.

Lemma new_in_bounds (data : list byte) (e : Endianness) :
  offset_in_bounds (new data e).
Proof. unfold offset_in_bounds, offset, size, new, Py.len. cbn. lia. Qed.

End Invariant.

(** ** Reads inside the buffer *)

Section ReadsInBounds.

Variable self : BinaryReader.
Variable n : Z.
Hypothesis Hoff : 0 <= offset self.
Hypothesis Hn : 0 < n.
Hypothesis Hrem : offset self + n <= size self.

Lemma view_in_bounds :
  Py.slice (_data self) (offset self) (offset self + n)
  = bytes_at (_data self) (offset self) n.
Proof. apply slice_bytes_at; unfold offset, size in *; lia. Qed.

Lemma view_length : Py.len (bytes_at (_data self) (offset self) n) = n.
Proof. apply bytes_at_length; unfold offset, size in *; lia. Qed.

Lemma view_not_empty : bytes_at (_data self) (offset self) n <> [].
Proof.
  intros Hnil. pose proof view_length as Hlen.
  rewrite Hnil in Hlen. unfold Py.len in Hlen. cbn [length] in Hlen. lia.
Qed.

Lemma read_uint_in_bounds :
  read UINT n self
  = (Return (VInt (unsigned_value (_endianness self)
                     (bytes_at (_data self) (offset self) n))),
     moved self (offset self + n)).
Proof.
  rewrite read_past_guards by (exact Hn || (apply has_bytes_true; exact Hrem)).
  cbv zeta. rewrite view_in_bounds, from_bytes_unsigned. reflexivity.
Qed.

Lemma read_int_in_bounds :
  read INT n self
  = (Return (VInt (twos_complement (8 * n)
                     (unsigned_value (_endianness self)
                        (bytes_at (_data self) (offset self) n)))),
     moved self (offset self + n)).
Proof.
  rewrite read_past_guards by (exact Hn || (apply has_bytes_true; exact Hrem)).
  cbv zeta. rewrite view_in_bounds, from_bytes_signed by exact view_not_empty.
  rewrite view_length. reflexivity.
Qed.

Lemma read_bytes_in_bounds :
  read BYTES n self
  = (Return (VBytes (bytes_at (_data self) (offset self) n)),
     moved self (offset self + n)).
Proof.
  rewrite read_past_guards by (exact Hn || (apply has_bytes_true; exact Hrem)).
  cbv zeta. rewrite view_in_bounds. reflexivity.
Qed.

End ReadsInBounds.

(** The one byte under a cursor inside the buffer. *)
Lemma bytes_at_one (data : list byte) (o : Z) :
  0 <= o < Py.len data ->
  exists b,
    nth_error data (Z.to_nat o) = Some b /\ bytes_at data o 1 = [b].
Proof.
  intros Ho. unfold bytes_at, Py.len in *.
  assert (Hlt : (Z.to_nat o < length data)%nat) by lia.
  destruct (nth_error data (Z.to_nat o)) as [b |] eqn:Hnth.
  - exists b. split; [reflexivity |].
    apply nth_error_split in Hnth. destruct Hnth as (l1 & l2 & Hdata & Hlen).
    rewrite Hdata, <- Hlen, skipn_app, skipn_all, Nat.sub_diag.
    reflexivity.
  - apply nth_error_None in Hnth. lia.
Qed.

Lemma byte_val_zero (b : byte) : (Py.byte_val b =? 0) = Byte.eqb b x00.
Proof. destruct b; reflexivity. Qed.

(** * The claims *)

(** C1. A failing call should leave the offset where it was.  The size check
    of a [BOOL] read stands after the assignment to [_offset], so
    [read(BOOL, 2)] on a two-byte buffer raises and the offset is 2, no
    longer 0. *)
Theorem read_bool_two_bytes_raises_moved :
  read BOOL 2 (new [x00; x00] BIG)
  = (Raise (ValueError (BoolMustBe1Byte 2)), moved (new [x00; x00] BIG) 2)
  /\ raises (CallRead BOOL 2) (new [x00; x00] BIG) = true
  /\ offset (new [x00; x00] BIG) = 0
  /\ offset (after (CallRead BOOL 2) (new [x00; x00] BIG)) = 2.
Proof. repeat split; reflexivity. Qed.

(** C2. The offset should stay within [0 .. size()] along every sequence of
    calls.  [skip] has no lower bound on its count: on a fresh reader
    [skip(-1)] returns and the offset is -1. *)
Theorem skip_back_from_start_out_of_bounds :
  skip (-1) (new [x00] BIG) = (Return tt, moved (new [x00] BIG) (-1))
  /\ offset (run [CallSkip (-1)] (new [x00] BIG)) = -1
  /\ (offset_in_bounds (run [CallSkip (-1)] (new [x00] BIG)) -> False).
Proof.
  split; [reflexivity | split; [reflexivity |]].
  unfold offset_in_bounds. cbn. lia.
Qed.

(** C3, as stated, fails: with one byte left [read(BOOL, 2)] raises at the
    bounds guard, an out-of-bounds error and not an invalid-size one. *)
Lemma read_bool_two_on_one_byte_out_of_bounds :
  read BOOL 2 (new [x7f] BIG)
  = (Raise (ValueError (CannotRead 2 0 1)), new [x7f] BIG)
  /\ error_kind (ValueError (CannotRead 2 0 1)) = Some OutOfBounds
  /\ error_kind (ValueError (CannotRead 2 0 1)) <> Some InvalidSize.
Proof. split; [reflexivity | split; [reflexivity | discriminate]]. Qed.

(** C3, amended.  [read] checks a non-positive size first (invalid size),
    then the remaining length (out of bounds), and only after both the size
    of a [BOOL] read (invalid size).  So [read(BOOL, size)] with [size <> 1]
    always raises: invalid size when [size <= 0] or when [size] bytes are
    there, out of bounds when [size > 1] and fewer bytes remain. *)
Theorem read_guard_order (self : BinaryReader) (data_type : DataType) (n : Z) :
  (n <= 0 ->
   read data_type n self = (Raise (ValueError (SizeMustBePositive n)), self)
   /\ error_kind (ValueError (SizeMustBePositive n)) = Some InvalidSize)
  /\
  (0 < n -> has_bytes n self = false ->
   read data_type n self
   = (Raise (ValueError (CannotRead n (offset self) (size self))), self)
   /\ error_kind (ValueError (CannotRead n (offset self) (size self)))
      = Some OutOfBounds)
  /\
  (1 < n -> has_bytes n self = true ->
   fst (read BOOL n self) = Raise (ValueError (BoolMustBe1Byte n))
   /\ error_kind (ValueError (BoolMustBe1Byte n)) = Some InvalidSize).
Proof.
  repeat split.
  - apply read_size_not_positive. assumption.
  - apply read_past_end; assumption.
  - rewrite read_past_guards by (assumption || lia). cbv zeta.
    replace (n =? 1) with false by (symmetry; apply Z.eqb_neq; lia).
    reflexivity.
Qed.

Lemma read_guard_order_witness :
  (read BOOL 0 (new [x01; x02] BIG)
   = (Raise (ValueError (SizeMustBePositive 0)), new [x01; x02] BIG))
  /\ (read BOOL 3 (new [x01; x02] BIG)
      = (Raise (ValueError (CannotRead 3 0 2)), new [x01; x02] BIG))
  /\ (fst (read BOOL 2 (new [x01; x02] BIG))
      = Raise (ValueError (BoolMustBe1Byte 2))).
Proof.
  destruct (read_guard_order (new [x01; x02] BIG) BOOL 0) as (H0 & _ & _).
  destruct (read_guard_order (new [x01; x02] BIG) BOOL 3) as (_ & H3 & _).
  destruct (read_guard_order (new [x01; x02] BIG) BOOL 2) as (_ & _ & H2).
  split; [| split].
  - apply H0. lia.
  - apply H3; [lia | reflexivity].
  - apply H2; [lia | reflexivity].
Defined.

(** C4. With [size] bytes remaining, [read(UINT, size)] should return the
    bytes it consumes read as an unsigned number.  A backward [skip] (the
    defect of C2) leaves the offset below zero, and there the view [read]
    slices is not the bytes at the cursor: on the buffer [ff ff], after
    [skip(-2)], four bytes remain, [has_bytes(2)] holds, and
    [read(UINT, 2)] returns 0, the value of no two bytes of that buffer. *)
Theorem read_uint_after_backward_skip :
  skip (-2) (new [xff; xff] BIG) = (Return tt, moved (new [xff; xff] BIG) (-2))
  /\ remaining (moved (new [xff; xff] BIG) (-2)) = 4
  /\ has_bytes 2 (moved (new [xff; xff] BIG) (-2)) = true
  /\ read UINT 2 (snd (skip (-2) (new [xff; xff] BIG)))
     = (Return (VInt 0), new [xff; xff] BIG)
  /\ unsigned_value BIG [xff; xff] = 65535.
Proof. repeat split; reflexivity. Qed.

(** X26. With the cursor inside the buffer ([0 <= offset]) and [size > 0]
    bytes left at it, [read(UINT, size)] returns those bytes read as an
    unsigned number in the reader's byte order (most significant byte
    first for [BIG], least significant first for [LITTLE]) and moves the
    offset by [size].  On [00 01 02 03], big-endian, two reads of two bytes
    give 1 and 515 and nothing remains; on [01 02], little-endian, one read
    of two bytes gives 513. *)
Theorem read_uint_value :
  (forall (self : BinaryReader) (n : Z),
      0 <= offset self -> 0 < n -> offset self + n <= size self ->
      read UINT n self
      = (Return (VInt (unsigned_value (_endianness self)
                         (bytes_at (_data self) (offset self) n))),
         moved self (offset self + n))
      /\ Py.len (bytes_at (_data self) (offset self) n) = n
      /\ offset (snd (read UINT n self)) = offset self + n)
  /\
  (let r0 := new [x00; x01; x02; x03] BIG in
   let r1 := snd (read UINT 2 r0) in
   let r2 := snd (read UINT 2 r1) in
   fst (read UINT 2 r0) = Return (VInt 1) /\ offset r1 = 2
   /\ fst (read UINT 2 r1) = Return (VInt 515) /\ offset r2 = 4
   /\ remaining r2 = 0)
  /\
  fst (read UINT 2 (new [x01; x02] LITTLE)) = Return (VInt 513).
Proof.
  split; [| split; [cbv zeta; repeat split |]; reflexivity].
  intros self n Hoff Hn Hrem.
  split; [| split].
  - apply read_uint_in_bounds; assumption.
  - apply view_length; assumption.
  - rewrite read_uint_in_bounds by assumption. reflexivity.
Qed.

Lemma read_uint_value_witness :
  read UINT 2 (moved (new [x0a; x01; x02; x0b] BIG) 1)
  = (Return (VInt 258), moved (new [x0a; x01; x02; x0b] BIG) 3).
Proof.
  destruct read_uint_value as [Hgen _].
  destruct (Hgen (moved (new [x0a; x01; x02; x0b] BIG) 1) 2) as [Hread _].
  - cbn. lia.
  - lia.
  - cbn. lia.
  - exact Hread.
Defined.

(** C5. With [size] bytes remaining, [read(INT, size)] should return the
    unsigned value of the same bytes reinterpreted as two's complement over
    [8 * size] bits.  Below zero (the defect of C2) the view is shorter than
    [size]: on four [ff] bytes, after [skip(-10)], [has_bytes(8)] holds,
    [read(UINT, 8)] returns 65535 and [read(INT, 8)] returns -1, which is
    two's complement over 16 bits; over 64 bits 65535 reads as 65535. *)
Theorem read_int_after_backward_skip :
  skip (-10) (new [xff; xff; xff; xff] BIG)
  = (Return tt, moved (new [xff; xff; xff; xff] BIG) (-10))
  /\ has_bytes 8 (moved (new [xff; xff; xff; xff] BIG) (-10)) = true
  /\ read UINT 8 (snd (skip (-10) (new [xff; xff; xff; xff] BIG)))
     = (Return (VInt 65535), moved (new [xff; xff; xff; xff] BIG) (-2))
  /\ read INT 8 (snd (skip (-10) (new [xff; xff; xff; xff] BIG)))
     = (Return (VInt (-1)), moved (new [xff; xff; xff; xff] BIG) (-2))
  /\ twos_complement (8 * 8) 65535 = 65535.
Proof. repeat split; reflexivity. Qed.

(** X27. With the cursor inside the buffer ([0 <= offset]) and [size > 0]
    bytes left at it, [read(INT, size)] returns what [read(UINT, size)]
    returns there, reinterpreted as two's complement over all [8 * size]
    bits; on the buffer [ff] a one-byte signed read gives -1. *)
Theorem read_int_twos_complement :
  (forall (self : BinaryReader) (n : Z),
      0 <= offset self -> 0 < n -> offset self + n <= size self ->
      exists u,
        u = unsigned_value (_endianness self)
              (bytes_at (_data self) (offset self) n)
        /\ read UINT n self = (Return (VInt u), moved self (offset self + n))
        /\ read INT n self
           = (Return (VInt (twos_complement (8 * n) u)),
              moved self (offset self + n)))
  /\
  read INT 1 (new [xff] BIG) = (Return (VInt (-1)), moved (new [xff] BIG) 1).
Proof.
  split; [| reflexivity].
  intros self n Hoff Hn Hrem.
  eexists. split; [reflexivity | split].
  - apply read_uint_in_bounds; assumption.
  - apply read_int_in_bounds; assumption.
Qed.

Lemma read_int_twos_complement_witness :
  read INT 2 (moved (new [x00; x01; xff; xfe] LITTLE) 2)
  = (Return (VInt (-257)), moved (new [x00; x01; xff; xfe] LITTLE) 4).
Proof.
  destruct read_int_twos_complement as [Hgen _].
  destruct (Hgen (moved (new [x00; x01; xff; xfe] LITTLE) 2) 2)
    as (u & Hu & _ & Hint).
  - cbn. lia.
  - lia.
  - cbn. lia.
  - rewrite Hint, Hu. reflexivity.
Defined.

(** C6. For a buffer of [k >= 1] bytes and a big-endian reader at offset 0,
    [read(UINT, k)] returns a number whose encoding over [k] big-endian
    bytes is the buffer again. *)
Theorem read_uint_big_round_trip (data : list byte) :
  1 <= Py.len data ->
  exists v,
    read UINT (Py.len data) (new data BIG)
    = (Return (VInt v), moved (new data BIG) (Py.len data))
    /\ Py.to_bytes v (length data) Py.big = Some data.
Proof.
  intros Hk.
  exists (be_value data). split.
  - rewrite read_uint_in_bounds
      by (unfold offset, size, new; cbn [_offset _data]; lia).
    cbn [new _endianness _data offset _offset unsigned_value].
    unfold bytes_at, Py.len. rewrite Nat2Z.id. cbn [Z.to_nat skipn].
    rewrite firstn_all. reflexivity.
  - apply (to_bytes_unsigned_value BIG).
Qed.

Lemma read_uint_big_round_trip_witness :
  exists v,
    read UINT 4 (new [xde; xad; xbe; xef] BIG)
    = (Return (VInt v), moved (new [xde; xad; xbe; xef] BIG) 4)
    /\ Py.to_bytes v 4 Py.big = Some [xde; xad; xbe; xef].
Proof.
  apply (read_uint_big_round_trip [xde; xad; xbe; xef]).
  cbn. lia.
Defined.

(** C7. With [n > 0] bytes left, [peek(n)] returns without touching the
    reader, a [read(BYTES, n)] right after it returns the same bytes, and
    that read moves the offset by exactly [n]. *)
Theorem peek_then_read_bytes (self : BinaryReader) (n : Z) :
  0 < n -> offset self + n <= size self ->
  exists bs,
    peek n self = (Return bs, self)
    /\ read BYTES n (snd (peek n self))
       = (Return (VBytes bs), moved self (offset self + n))
    /\ offset (snd (read BYTES n (snd (peek n self)))) = offset self + n
    /\ (0 <= offset self ->
        bs = bytes_at (_data self) (offset self) n /\ Py.len bs = n).
Proof.
  intros Hn Hrem.
  assert (Hhas : has_bytes n self = true) by (apply has_bytes_true; exact Hrem).
  exists (Py.slice (_data self) (offset self) (offset self + n)).
  assert (Hpeek : peek n self
                  = (Return (Py.slice (_data self) (offset self) (offset self + n)),
                     self)).
  { rewrite peek_cases, Hhas. reflexivity. }
  rewrite Hpeek. cbn [snd].
  rewrite read_past_guards by assumption. cbv zeta.
  repeat split.
  - apply view_in_bounds; assumption.
  - rewrite view_in_bounds by assumption. apply view_length; assumption.
Qed.

Lemma peek_then_read_bytes_witness :
  exists bs,
    peek 2 (moved (new [x0a; x0b; x0c] BIG) 1)
    = (Return bs, moved (new [x0a; x0b; x0c] BIG) 1)
    /\ read BYTES 2 (moved (new [x0a; x0b; x0c] BIG) 1)
       = (Return (VBytes bs), moved (new [x0a; x0b; x0c] BIG) 3)
    /\ bs = [x0b; x0c].
Proof.
  destruct (peek_then_read_bytes (moved (new [x0a; x0b; x0c] BIG) 1) 2)
    as (bs & Hpeek & Hread & _ & Hbs).
  - lia.
  - cbn. lia.
  - exists bs. split; [exact Hpeek | split].
    + rewrite Hpeek in Hread. exact Hread.
    + apply Hbs. cbn. lia.
Defined.

(** C8. [seek(target)] returns and sets the offset to [target] exactly when
    [0 <= target <= len(buffer)]; otherwise it raises the invalid-offset
    error and the reader is unchanged.  [seek(-1)] always raises;
    [seek(size())] always returns and nothing remains. *)
Theorem seek_in_range_iff (self : BinaryReader) (target : Z) :
  (0 <= target <= size self ->
   seek target self = (Return tt, moved self target)
   /\ offset (snd (seek target self)) = target)
  /\
  (~ 0 <= target <= size self ->
   seek target self
   = (Raise (ValueError (InvalidSeekOffset target (size self))), self)
   /\ error_kind (ValueError (InvalidSeekOffset target (size self)))
      = Some InvalidOffset)
  /\
  ((exists self', seek target self = (Return tt, self'))
   <-> 0 <= target <= size self)
  /\
  seek (-1) self = (Raise (ValueError (InvalidSeekOffset (-1) (size self))), self)
  /\
  seek (size self) self = (Return tt, moved self (size self))
  /\
  remaining (snd (seek (size self) self)) = 0.
Proof.
  assert (Hin : forall t, 0 <= t <= size self ->
                          seek t self = (Return tt, moved self t)).
  { intros t Ht. rewrite seek_cases.
    replace ((0 <=? t) && (t <=? size self)) with true; [reflexivity |].
    symmetry. apply andb_true_iff. split; apply Z.leb_le; lia. }
  assert (Hout : forall t, ~ 0 <= t <= size self ->
                           seek t self
                           = (Raise (ValueError (InvalidSeekOffset t (size self))),
                              self)).
  { intros t Ht. rewrite seek_cases.
    destruct ((0 <=? t) && (t <=? size self)) eqn:Hrange; [| reflexivity].
    apply andb_true_iff in Hrange. destruct Hrange as [Hlo Hhi].
    apply Z.leb_le in Hlo. apply Z.leb_le in Hhi. lia. }
  assert (Hsize : 0 <= size self) by (unfold size, Py.len; lia).
  split; [| split; [| split; [| split; [| split]]]].
  - intros Ht. rewrite (Hin target Ht). split; reflexivity.
  - intros Ht. rewrite (Hout target Ht). split; reflexivity.
  - split.
    + intros [self' Hseek].
      destruct (Z_le_dec 0 target) as [Hlo | Hlo];
        [destruct (Z_le_dec target (size self)) as [Hhi | Hhi]; [lia |] |];
        rewrite Hout in Hseek by lia; discriminate.
    + intros Ht. exists (moved self target). apply Hin. exact Ht.
  - apply Hout. lia.
  - apply Hin. lia.
  - rewrite Hin by lia. unfold remaining, moved, size. cbn [snd _data _offset]. lia.
Qed.

Lemma seek_in_range_iff_witness :
  seek 1 (moved (new [x0a; x0b; x0c] BIG) 3)
  = (Return tt, moved (new [x0a; x0b; x0c] BIG) 1)
  /\ seek 4 (new [x0a; x0b; x0c] BIG)
     = (Raise (ValueError (InvalidSeekOffset 4 3)), new [x0a; x0b; x0c] BIG).
Proof.
  split.
  - destruct (seek_in_range_iff (moved (new [x0a; x0b; x0c] BIG) 3) 1)
      as (Hin & _).
    apply Hin. cbn. lia.
  - destruct (seek_in_range_iff (new [x0a; x0b; x0c] BIG) 4) as (_ & Hout & _).
    apply Hout. cbn. lia.
Defined.

(** C9. With at least one byte remaining, [read(BOOL, 1)] should return.
    Below zero (the defect of C2) it need not: on the buffer [0a 0b], after
    [skip(-1)], three bytes remain and [has_bytes(1)] holds, yet the view
    [read] slices is empty and [read(BOOL, 1)] raises [IndexError], with
    the offset moved to 0. *)
Theorem read_bool_after_backward_skip :
  skip (-1) (new [x0a; x0b] BIG) = (Return tt, moved (new [x0a; x0b] BIG) (-1))
  /\ remaining (moved (new [x0a; x0b] BIG) (-1)) = 3
  /\ has_bytes 1 (moved (new [x0a; x0b] BIG) (-1)) = true
  /\ read BOOL 1 (snd (skip (-1) (new [x0a; x0b] BIG)))
     = (Raise IndexError, new [x0a; x0b] BIG).
Proof. repeat split; reflexivity. Qed.

(** X28. With the cursor on a byte of the buffer ([0 <= offset < size()]),
    [read(BOOL, 1)] returns [False] when that byte is [00] and [True] for
    any other byte, and moves the offset by 1. *)
Theorem read_bool_one_byte :
  (forall self : BinaryReader,
      0 <= offset self < size self ->
      exists b,
        nth_error (_data self) (Z.to_nat (offset self)) = Some b
        /\ read BOOL 1 self
           = (Return (VBool (negb (Byte.eqb b x00))),
              moved self (offset self + 1)))
  /\
  fst (read BOOL 1 (new [x00] BIG)) = Return (VBool false)
  /\
  fst (read BOOL 1 (new [x7f] BIG)) = Return (VBool true).
Proof.
  split; [| split; reflexivity].
  intros self Hoff.
  destruct (bytes_at_one (_data self) (offset self)) as (b & Hnth & Hone).
  { unfold size in Hoff. exact Hoff. }
  exists b. split; [exact Hnth |].
  rewrite read_past_guards by (lia || (apply has_bytes_true; lia)).
  cbv zeta. rewrite view_in_bounds by lia.
  rewrite Hone, getitem_0, byte_val_zero. reflexivity.
Qed.

Lemma read_bool_one_byte_witness :
  read BOOL 1 (moved (new [x00; x01; x00] BIG) 1)
  = (Return (VBool true), moved (new [x00; x01; x00] BIG) 2).
Proof.
  destruct read_bool_one_byte as [Hgen _].
  destruct (Hgen (moved (new [x00; x01; x00] BIG) 1)) as (b & Hnth & Hread).
  - cbn. lia.
  - cbn in Hnth. inversion Hnth; subst b. exact Hread.
Defined.

(** C10. From an offset inside the buffer and for a negative count [n],
    [has_bytes(n)] is true and [skip(n)] returns with the offset at
    [offset + n]: the cursor goes backwards, and below zero when
    [n < -offset]. *)
Theorem skip_negative_count (self : BinaryReader) (n : Z) :
  0 <= offset self <= size self -> n < 0 ->
  has_bytes n self = true
  /\ skip n self = (Return tt, moved self (offset self + n))
  /\ offset (snd (skip n self)) = offset self + n
  /\ offset (snd (skip n self)) < offset self
  /\ (n < - offset self -> offset (snd (skip n self)) < 0).
Proof.
  intros Hinv Hn.
  assert (Hhas : has_bytes n self = true) by (apply has_bytes_true; lia).
  assert (Hskip : skip n self = (Return tt, moved self (offset self + n))).
  { rewrite skip_cases, Hhas. reflexivity. }
  rewrite Hskip. cbn [snd].
  change (offset (moved self (offset self + n))) with (offset self + n).
  repeat split; try assumption; lia.
Qed.

Lemma skip_negative_count_witness :
  has_bytes (-3) (moved (new [x0a; x0b; x0c] BIG) 2) = true
  /\ skip (-3) (moved (new [x0a; x0b; x0c] BIG) 2)
     = (Return tt, moved (new [x0a; x0b; x0c] BIG) (-1)).
Proof.
  destruct (skip_negative_count (moved (new [x0a; x0b; x0c] BIG) 2) (-3))
    as (Hhas & Hskip & _).
  - cbn. lia.
  - lia.
  - split; [exact Hhas | exact Hskip].
Defined.

(** * Further properties of the reader *)

(** ** Queries and [peek] *)

Lemma moved_same (self : BinaryReader) : moved self (offset self) = self.
Proof. destruct self; reflexivity. Qed.

Lemma moved_eq (self : BinaryReader) (o : Z) :
  o = offset self -> moved self o = self.
Proof. intros ->. apply moved_same. Qed.

(** X1. [has_bytes(count)] holds exactly when [count] is at most
    [remaining]; so [has_bytes(remaining)] always holds and
    [has_bytes(remaining + 1)] never does, whatever the cursor. *)
Theorem has_bytes_remaining (self : BinaryReader) (count : Z) :
  (has_bytes count self = true <-> count <= remaining self)
  /\ has_bytes (remaining self) self = true
  /\ has_bytes (remaining self + 1) self = false.
Proof.
  unfold has_bytes, remaining.
  split; [| split].
  - rewrite Z.leb_le. lia.
  - apply Z.leb_le. lia.
  - apply Z.leb_gt. lia.
Qed.

(** X2. [peek] never moves the cursor: whether it returns or raises, the
    reader it leaves is the reader it found, and it raises exactly when
    [has_bytes] is false. *)
Theorem peek_leaves_reader (self : BinaryReader) (n : Z) :
  snd (peek n self) = self
  /\ (raises_peek n self = true <-> has_bytes n self = false)
  /\ peek n (snd (peek n self)) = peek n self.
Proof.
  unfold raises_peek. rewrite peek_cases.
  destruct (has_bytes n self) eqn:Hhas; cbn [fst snd];
    rewrite peek_cases, Hhas; repeat split; intros; congruence.
Qed.

(** X3. [peek] has no lower bound on its size where [read] has one: with
    the cursor at or before the end, [peek(0)] returns the empty byte string
    and [read(BYTES, 0)] raises. *)
Theorem peek_zero_returns_empty (self : BinaryReader) :
  offset self <= size self ->
  peek 0 self = (Return [], self)
  /\ read BYTES 0 self = (Raise (ValueError (SizeMustBePositive 0)), self).
Proof.
  intros Hoff. split.
  - rewrite peek_cases.
    replace (has_bytes 0 self) with true
      by (symmetry; apply has_bytes_true; lia).
    unfold Py.slice. rewrite Z.add_0_r, Z.ltb_irrefl. reflexivity.
  - apply read_size_not_positive. lia.
Qed.

Lemma peek_zero_returns_empty_witness :
  peek 0 (moved (new [x0a; x0b] BIG) 2) = (Return [], moved (new [x0a; x0b] BIG) 2)
  /\ read BYTES 0 (moved (new [x0a; x0b] BIG) 2)
     = (Raise (ValueError (SizeMustBePositive 0)), moved (new [x0a; x0b] BIG) 2).
Proof.
  apply (peek_zero_returns_empty (moved (new [x0a; x0b] BIG) 2)).
  cbn. lia.
Defined.

(** ** How the mutating calls compose *)

Section Composition.

Variable self : BinaryReader.

Lemma has_bytes_moved (o count : Z) :
  has_bytes count (moved self o) = (o + count <=? size self).
Proof. reflexivity. Qed.

Lemma moved_moved (o o' : Z) : moved (moved self o) o' = moved self o'.
Proof. reflexivity. Qed.

Lemma skip_returns (count : Z) :
  has_bytes count self = true ->
  skip count self = (Return tt, moved self (offset self + count)).
Proof. intros Hhas. rewrite skip_cases, Hhas. reflexivity. Qed.

(** X4. Two skips forward are one skip of the sum: when [skip(a + b)]
    fits and [b >= 0], [skip(a)] then [skip(b)] both return and leave the
    reader where [skip(a + b)] leaves it. *)
Theorem skip_skip (a b : Z) :
  0 <= b -> has_bytes (a + b) self = true ->
  skip a self = (Return tt, moved self (offset self + a))
  /\ skip b (snd (skip a self)) = skip (a + b) self
  /\ skip (a + b) self = (Return tt, moved self (offset self + (a + b))).
Proof.
  intros Hb Hsum.
  assert (Ha : has_bytes a self = true).
  { apply has_bytes_true. apply has_bytes_true in Hsum. lia. }
  rewrite (skip_returns a Ha), (skip_returns (a + b) Hsum). cbn [snd].
  repeat split.
  rewrite skip_cases, has_bytes_moved.
  apply has_bytes_true in Hsum.
  replace (offset self + a + b <=? size self) with true
    by (symmetry; apply Z.leb_le; lia).
  rewrite moved_moved.
  change (offset (moved self (offset self + a))) with (offset self + a).
  rewrite Z.add_assoc. reflexivity.
Qed.

(** X5. [skip(0)] is a no-op wherever the cursor is at or before the end:
    it returns and the reader is unchanged. *)
Theorem skip_zero (Hoff : offset self <= size self) :
  skip 0 self = (Return tt, self).
Proof.
  rewrite skip_returns by (apply has_bytes_true; lia).
  rewrite moved_eq by lia. reflexivity.
Qed.

(** X6. For a positive size, [skip] moves the cursor exactly as a [read] of
    that size does, of whatever kind and whether or not they raise: both
    stay when the bytes are not there, both advance by the size when they
    are. *)
Theorem skip_moves_like_read (data_type : DataType) (n : Z) :
  0 < n -> snd (skip n self) = snd (read data_type n self).
Proof.
  intros Hn. rewrite skip_cases.
  destruct (has_bytes n self) eqn:Hhas.
  - rewrite read_moves_past_guards by assumption. reflexivity.
  - rewrite read_past_end by assumption. reflexivity.
Qed.

(** X7. [read] never moves the cursor backwards: it leaves the offset where
    it was or ahead of it, and ahead exactly when both guards pass. *)
Theorem read_offset_monotone (data_type : DataType) (n : Z) :
  offset self <= offset (snd (read data_type n self))
  /\ (offset self < offset (snd (read data_type n self))
      <-> 0 < n /\ has_bytes n self = true).
Proof.
  destruct (Z_le_gt_dec n 0) as [Hn | Hn].
  - rewrite read_size_not_positive by exact Hn. cbn [snd]. split; [lia |].
    split; [lia | intros [Hpos _]; lia].
  - destruct (has_bytes n self) eqn:Hhas.
    + rewrite read_moves_past_guards by (assumption || lia).
      change (offset (moved self (offset self + n))) with (offset self + n).
      split; [lia |]. split; [intros _; split; [lia | reflexivity] | lia].
    + rewrite read_past_end by (assumption || lia). cbn [snd]. split; [lia |].
      split; [lia | intros [_ Hno]; discriminate].
Qed.

(** X8. A reader at the end of its buffer refuses every [read]: whatever
    the kind and the size, the call raises (invalid size for a non-positive
    size, out of bounds otherwise) and the reader is unchanged. *)
Theorem read_at_end (data_type : DataType) (n : Z) :
  offset self = size self ->
  read data_type n self
  = (Raise (ValueError (if n <=? 0 then SizeMustBePositive n
                        else CannotRead n (offset self) (size self))),
     self).
Proof.
  intros Hend.
  destruct (n <=? 0) eqn:Hn.
  - apply read_size_not_positive. apply Z.leb_le. exact Hn.
  - apply Z.leb_gt in Hn. apply read_past_end; [lia |].
    apply has_bytes_false. lia.
Qed.

End Composition.

Lemma skip_skip_witness :
  skip 2 (snd (skip 1 (new [x0a; x0b; x0c; x0d] BIG)))
  = skip 3 (new [x0a; x0b; x0c; x0d] BIG).
Proof.
  destruct (skip_skip (new [x0a; x0b; x0c; x0d] BIG) 1 2) as (_ & Hboth & _).
  - lia.
  - reflexivity.
  - exact Hboth.
Defined.

Lemma skip_zero_witness :
  skip 0 (moved (new [x0a; x0b] LITTLE) 2)
  = (Return tt, moved (new [x0a; x0b] LITTLE) 2).
Proof.
  apply (skip_zero (moved (new [x0a; x0b] LITTLE) 2)).
  cbn. lia.
Defined.

Lemma skip_moves_like_read_witness :
  snd (skip 2 (new [x0a; x0b; x0c] BIG))
  = snd (read BOOL 2 (new [x0a; x0b; x0c] BIG)).
Proof.
  apply (skip_moves_like_read (new [x0a; x0b; x0c] BIG) BOOL 2).
  lia.
Defined.

Lemma read_at_end_witness :
  read UINT 1 (new [] BIG) = (Raise (ValueError (CannotRead 1 0 0)), new [] BIG)
  /\ read BYTES 4 (moved (new [x0a; x0b] BIG) 2)
     = (Raise (ValueError (CannotRead 4 2 2)), moved (new [x0a; x0b] BIG) 2).
Proof.
  split.
  - apply (read_at_end (new [] BIG) UINT 1). reflexivity.
  - apply (read_at_end (moved (new [x0a; x0b] BIG) 2) BYTES 4). reflexivity.
Defined.

(** ** What sequences of calls keep *)

Section Sequences.

Lemma after_is_moved (c : Call) (self : BinaryReader) :
  after c self = moved self (offset (after c self)).
Proof.
  destruct c as [data_type n | count | target]; cbn [after].
  - destruct (Z_le_gt_dec n 0) as [Hn | Hn].
    + rewrite read_size_not_positive by exact Hn. cbn [snd].
      symmetry. apply moved_same.
    + destruct (has_bytes n self) eqn:Hhas.
      * rewrite read_moves_past_guards by (assumption || lia). reflexivity.
      * rewrite read_past_end by (assumption || lia). cbn [snd].
        symmetry. apply moved_same.
  - rewrite skip_cases. destruct (has_bytes count self); cbn [snd];
      [reflexivity | symmetry; apply moved_same].
  - rewrite seek_cases.
    destruct ((0 <=? target) && (target <=? size self)); cbn [snd];
      [reflexivity | symmetry; apply moved_same].
Qed.

Lemma run_is_moved (calls : list Call) :
  forall self, run calls self = moved self (offset (run calls self)).
Proof.
  induction calls as [| c calls IH]; intros self.
  - symmetry. apply moved_same.
  - cbn [run fold_left]. fold (run calls (after c self)).
    rewrite (IH (after c self)) at 1.
    rewrite (after_is_moved c self) at 1.
    reflexivity.
Qed.

(** X9. No sequence of [read], [skip] and [seek] calls, returning or
    raising, changes the buffer or the byte order: only the offset differs
    between the reader before and after. *)
Theorem run_keeps_buffer (calls : list Call) (self : BinaryReader) :
  _data (run calls self) = _data self
  /\ _endianness (run calls self) = _endianness self
  /\ size (run calls self) = size self.
Proof.
  rewrite (run_is_moved calls self). repeat split.
Qed.

(** X10. A saved offset brings the reader back: after any sequence of
    calls on a reader whose cursor was inside the buffer, [seek] to the
    offset it had returns and the reader is exactly as it was. *)
Theorem seek_back_restores (calls : list Call) (self : BinaryReader) :
  offset_in_bounds self ->
  seek (offset self) (run calls self) = (Return tt, self).
Proof.
  intros Hinv. unfold offset_in_bounds in Hinv.
  rewrite (run_is_moved calls self), seek_cases.
  change (size (moved self (offset (run calls self)))) with (size self).
  replace ((0 <=? offset self) && (offset self <=? size self)) with true.
  - rewrite moved_moved, moved_same. reflexivity.
  - symmetry. apply andb_true_iff. split; apply Z.leb_le; lia.
Qed.

End Sequences.

Lemma seek_back_restores_witness :
  seek 1 (run [CallRead UINT 2; CallSkip (-7); CallRead BOOL 2; CallSeek 9]
            (moved (new [x0a; x0b; x0c; x0d] BIG) 1))
  = (Return tt, moved (new [x0a; x0b; x0c; x0d] BIG) 1).
Proof.
  apply (seek_back_restores
           [CallRead UINT 2; CallSkip (-7); CallRead BOOL 2; CallSeek 9]
           (moved (new [x0a; x0b; x0c; x0d] BIG) 1)).
  unfold offset_in_bounds. cbn. lia.
Defined.

(** X11. The cursor invariant along forward calls: from a reader with
    [0 <= offset <= size()], every sequence of [read], [seek] and [skip]
    calls in which no [skip] count is negative leaves
    [0 <= offset <= size()], whichever of the calls raise. *)
Theorem forward_calls_keep_bounds (calls : list Call) (self : BinaryReader) :
  Forall forward_call calls -> offset_in_bounds self ->
  offset_in_bounds (run calls self).
Proof. intros Hfwd Hinv. apply run_forward_in_bounds; assumption. Qed.

Lemma forward_calls_keep_bounds_witness :
  offset_in_bounds
    (run [CallRead UINT 2; CallSkip 9; CallRead BOOL 2; CallSeek (-1); CallSkip 0]
       (new [x0a; x0b; x0c; x0d] LITTLE)).
Proof.
  apply forward_calls_keep_bounds.
  - repeat constructor; cbn; lia.
  - apply new_in_bounds.
Defined.

(** X12. Where a raising call leaves the reader: a [skip] or [seek] that
    raises, and a [read] that raises at one of its two guards, leave the
    reader exactly as it was; the one raise that does not is a [BOOL] read
    past both guards. *)
Theorem raising_call_keeps_reader (c : Call) (self : BinaryReader) :
  raises c self = true ->
  (forall n, c = CallRead BOOL n -> n <= 0 \/ has_bytes n self = false) ->
  after c self = self.
Proof. intros Hraise Hbool. apply raising_call_unchanged; assumption. Qed.

Lemma raising_call_keeps_reader_witness :
  after (CallSkip 10) (moved (new [x0a; x0b; x0c; x0d] BIG) 1)
  = moved (new [x0a; x0b; x0c; x0d] BIG) 1.
Proof.
  apply raising_call_keeps_reader.
  - reflexivity.
  - intros n Hc. discriminate Hc.
Defined.

(** ** Consecutive reads *)

Section ConsecutiveReads.

Lemma firstn_add_split {A : Type} (a b : nat) (l : list A) :
  firstn (a + b) l = firstn a l ++ firstn b (skipn a l).
Proof.
  revert l. induction a as [| a IH]; intros l.
  - reflexivity.
  - destruct l as [| x l]; cbn [Nat.add firstn skipn app].
    + rewrite firstn_nil. reflexivity.
    + rewrite IH. reflexivity.
Qed.

Lemma bytes_at_split (data : list byte) (o a b : Z) :
  0 <= o -> 0 <= a -> 0 <= b ->
  bytes_at data o (a + b) = bytes_at data o a ++ bytes_at data (o + a) b.
Proof.
  intros Ho Ha Hb. unfold bytes_at.
  rewrite !Z2Nat.inj_add by lia.
  rewrite firstn_add_split, skipn_skipn.
  rewrite (Nat.add_comm (Z.to_nat a) (Z.to_nat o)). reflexivity.
Qed.

Lemma be_value_app (xs ys : list byte) :
  be_value (xs ++ ys) = be_value xs * 256 ^ Z.of_nat (length ys) + be_value ys.
Proof.
  rewrite !be_value_rev, rev_app_distr, le_value_app, length_rev. ring.
Qed.

Variable self : BinaryReader.
Variables a b : Z.
Hypothesis Hoff : 0 <= offset self.
Hypothesis Ha : 0 < a.
Hypothesis Hb : 0 < b.
Hypothesis Hrem : offset self + (a + b) <= size self.

Local Abbreviation self_a := (moved self (offset self + a)).

Lemma second_read_in_bounds :
  0 <= offset self_a /\ offset self_a + b <= size self_a.
Proof.
  change (offset (moved self (offset self + a))) with (offset self + a).
  change (size (moved self (offset self + a))) with (size self).
  lia.
Qed.

(** X13. Reading [a] raw bytes and then [b] more gives, concatenated, what
    one read of [a + b] bytes gives, and leaves the reader in the same
    place. *)
Theorem read_bytes_then_bytes :
  exists xs ys,
    read BYTES a self = (Return (VBytes xs), self_a)
    /\ read BYTES b self_a = (Return (VBytes ys), moved self (offset self + (a + b)))
    /\ read BYTES (a + b) self
       = (Return (VBytes (xs ++ ys)), moved self (offset self + (a + b))).
Proof.
  destruct second_read_in_bounds as [Hoff' Hrem'].
  exists (bytes_at (_data self) (offset self) a),
         (bytes_at (_data self) (offset self + a) b).
  split; [| split].
  - apply read_bytes_in_bounds; lia.
  - rewrite (read_bytes_in_bounds self_a b Hoff' Hb Hrem').
    rewrite moved_moved, Z.add_assoc. reflexivity.
  - rewrite read_bytes_in_bounds by lia.
    rewrite bytes_at_split by lia. reflexivity.
Qed.

(** X14. A wide unsigned read is made of the two narrower ones: with [u]
    read over [a] bytes and then [v] over [b] bytes, a read over [a + b]
    bytes returns [u * 256^b + v] in a big-endian reader and
    [u + 256^a * v] in a little-endian one. *)
Theorem read_uint_then_uint :
  exists u v,
    read UINT a self = (Return (VInt u), self_a)
    /\ read UINT b self_a = (Return (VInt v), moved self (offset self + (a + b)))
    /\ read UINT (a + b) self
       = (Return (VInt (match _endianness self with
                        | BIG => u * 256 ^ b + v
                        | LITTLE => u + 256 ^ a * v
                        end)),
          moved self (offset self + (a + b))).
Proof.
  destruct second_read_in_bounds as [Hoff' Hrem'].
  exists (unsigned_value (_endianness self) (bytes_at (_data self) (offset self) a)),
         (unsigned_value (_endianness self) (bytes_at (_data self) (offset self + a) b)).
  split; [| split].
  - apply read_uint_in_bounds; lia.
  - rewrite (read_uint_in_bounds self_a b Hoff' Hb Hrem').
    rewrite moved_moved, Z.add_assoc. reflexivity.
  - rewrite read_uint_in_bounds by lia.
    rewrite bytes_at_split by lia.
    assert (Hla : Z.of_nat (length (bytes_at (_data self) (offset self) a)) = a).
    { apply (view_length self a); lia. }
    assert (Hlb : Z.of_nat (length (bytes_at (_data self) (offset self + a) b)) = b).
    { apply (view_length self_a b Hoff' Hb Hrem'). }
    destruct (_endianness self); cbn [unsigned_value].
    + rewrite be_value_app, Hlb. reflexivity.
    + rewrite le_value_app, Hla. reflexivity.
Qed.

End ConsecutiveReads.

Lemma read_bytes_then_bytes_witness :
  exists xs ys,
    read BYTES 1 (moved (new [x0a; x0b; x0c; x0d] BIG) 1)
    = (Return (VBytes xs), moved (new [x0a; x0b; x0c; x0d] BIG) 2)
    /\ read BYTES 2 (moved (new [x0a; x0b; x0c; x0d] BIG) 2)
       = (Return (VBytes ys), moved (new [x0a; x0b; x0c; x0d] BIG) 4)
    /\ read BYTES 3 (moved (new [x0a; x0b; x0c; x0d] BIG) 1)
       = (Return (VBytes (xs ++ ys)), moved (new [x0a; x0b; x0c; x0d] BIG) 4).
Proof.
  apply (read_bytes_then_bytes (moved (new [x0a; x0b; x0c; x0d] BIG) 1) 1 2);
    cbn; lia.
Defined.

Lemma read_uint_then_uint_witness :
  exists u v,
    read UINT 1 (new [x01; x02; x03] LITTLE)
    = (Return (VInt u), moved (new [x01; x02; x03] LITTLE) 1)
    /\ read UINT 2 (moved (new [x01; x02; x03] LITTLE) 1)
       = (Return (VInt v), moved (new [x01; x02; x03] LITTLE) 3)
    /\ read UINT 3 (new [x01; x02; x03] LITTLE)
       = (Return (VInt (u + 256 ^ 1 * v)), moved (new [x01; x02; x03] LITTLE) 3).
Proof.
  apply (read_uint_then_uint (new [x01; x02; x03] LITTLE) 1 2); cbn; lia.
Defined.

(** ** The numbers [read] returns *)

Section Numbers.

Lemma twos_complement_range (n u : Z) :
  1 <= n -> 0 <= u < 2 ^ (8 * n) ->
  - 2 ^ (8 * n - 1) <= twos_complement (8 * n) u < 2 ^ (8 * n - 1).
Proof.
  intros Hn Hu.
  assert (Hdouble : 2 ^ (8 * n) = 2 * 2 ^ (8 * n - 1)).
  { replace (8 * n) with (Z.succ (8 * n - 1)) at 1 by lia.
    rewrite Z.pow_succ_r by lia. reflexivity. }
  unfold twos_complement.
  destruct (u <? 2 ^ (8 * n - 1)) eqn:Hcmp.
  - apply Z.ltb_lt in Hcmp. lia.
  - apply Z.ltb_ge in Hcmp. lia.
Qed.

Variable self : BinaryReader.
Variable n : Z.
Hypothesis Hoff : 0 <= offset self.
Hypothesis Hn : 0 < n.
Hypothesis Hrem : offset self + n <= size self.

Lemma view_value_range :
  0 <= unsigned_value (_endianness self) (bytes_at (_data self) (offset self) n)
  < 2 ^ (8 * n).
Proof.
  pose proof (unsigned_value_range (_endianness self)
                (bytes_at (_data self) (offset self) n)) as Hr.
  pose proof (view_length self n Hoff Hn Hrem) as Hlen.
  unfold Py.len in Hlen. rewrite Hlen in Hr.
  rewrite Z.pow_mul_r by lia. exact Hr.
Qed.

(** X15. The width bounds the value: over [n] bytes an unsigned read
    returns a number in [0 .. 2^(8n) - 1] and a signed read one in
    [-2^(8n-1) .. 2^(8n-1) - 1], in either byte order. *)
Theorem read_value_bounds :
  exists u s,
    fst (read UINT n self) = Return (VInt u)
    /\ fst (read INT n self) = Return (VInt s)
    /\ 0 <= u < 2 ^ (8 * n)
    /\ - 2 ^ (8 * n - 1) <= s < 2 ^ (8 * n - 1).
Proof.
  pose proof view_value_range as Hu.
  eexists. eexists.
  rewrite read_uint_in_bounds, read_int_in_bounds by assumption.
  cbn [fst].
  split; [reflexivity | split; [reflexivity | split]].
  - exact Hu.
  - apply twos_complement_range; [lia | exact Hu].
Qed.

(** X16. Signed and unsigned reads of the same bytes agree modulo
    [2^(8n)], and are equal exactly when the signed one is not negative. *)
Theorem read_int_congruent_uint :
  exists u s,
    fst (read UINT n self) = Return (VInt u)
    /\ fst (read INT n self) = Return (VInt s)
    /\ s mod 2 ^ (8 * n) = u
    /\ (s = u <-> 0 <= s).
Proof.
  pose proof view_value_range as Hu.
  eexists. eexists.
  rewrite read_uint_in_bounds, read_int_in_bounds by assumption.
  cbn [fst].
  split; [reflexivity | split; [reflexivity |]].
  set (u := unsigned_value (_endianness self)
              (bytes_at (_data self) (offset self) n)) in *.
  assert (Hdouble : 2 ^ (8 * n) = 2 * 2 ^ (8 * n - 1)).
  { replace (8 * n) with (Z.succ (8 * n - 1)) at 1 by lia.
    rewrite Z.pow_succ_r by lia. reflexivity. }
  unfold twos_complement.
  destruct (u <? 2 ^ (8 * n - 1)) eqn:Hcmp.
  - apply Z.ltb_lt in Hcmp. split; [apply Z.mod_small; lia | lia].
  - apply Z.ltb_ge in Hcmp. split; [| lia].
    symmetry. apply Z.mod_unique with (q := -1); lia.
Qed.

(** X17. Re-encoding an unsigned read, at any offset and in either byte
    order: [int.to_bytes] over [n] bytes in the reader's order gives back
    exactly the [n] bytes the read consumed. *)
Theorem read_uint_round_trip :
  exists u,
    read UINT n self = (Return (VInt u), moved self (offset self + n))
    /\ Py.to_bytes u (Z.to_nat n) (Endianness_value (_endianness self))
       = Some (bytes_at (_data self) (offset self) n).
Proof.
  eexists. split.
  - apply read_uint_in_bounds; assumption.
  - pose proof (view_length self n Hoff Hn Hrem) as Hlen.
    unfold Py.len in Hlen.
    replace (Z.to_nat n)
      with (length (bytes_at (_data self) (offset self) n)) by lia.
    apply to_bytes_unsigned_value.
Qed.

End Numbers.

Lemma read_value_bounds_witness :
  exists u s,
    fst (read UINT 2 (moved (new [x00; xff; xfe; x01] BIG) 1)) = Return (VInt u)
    /\ fst (read INT 2 (moved (new [x00; xff; xfe; x01] BIG) 1)) = Return (VInt s)
    /\ 0 <= u < 2 ^ (8 * 2)
    /\ - 2 ^ (8 * 2 - 1) <= s < 2 ^ (8 * 2 - 1).
Proof.
  apply (read_value_bounds (moved (new [x00; xff; xfe; x01] BIG) 1) 2);
    cbn; lia.
Defined.

Lemma read_int_congruent_uint_witness :
  exists u s,
    fst (read UINT 2 (moved (new [x00; xff; xfe; x01] BIG) 1)) = Return (VInt u)
    /\ fst (read INT 2 (moved (new [x00; xff; xfe; x01] BIG) 1)) = Return (VInt s)
    /\ s mod 2 ^ (8 * 2) = u
    /\ (s = u <-> 0 <= s).
Proof.
  apply (read_int_congruent_uint (moved (new [x00; xff; xfe; x01] BIG) 1) 2);
    cbn; lia.
Defined.

Lemma read_uint_round_trip_witness :
  exists u,
    read UINT 2 (moved (new [x00; xff; xfe; x01] LITTLE) 1)
    = (Return (VInt u), moved (new [x00; xff; xfe; x01] LITTLE) 3)
    /\ Py.to_bytes u 2 Py.little = Some [xff; xfe].
Proof.
  apply (read_uint_round_trip (moved (new [x00; xff; xfe; x01] LITTLE) 1) 2);
    cbn; lia.
Defined.

(** ** Whole buffers and single bytes *)

Section WholeBuffer.

Lemma bytes_at_all (data : list byte) : bytes_at data 0 (Py.len data) = data.
Proof.
  unfold bytes_at, Py.len. rewrite Nat2Z.id. cbn [Z.to_nat skipn].
  apply firstn_all.
Qed.

Variable data : list byte.
Hypothesis Hdata : data <> [].

Lemma whole_buffer_in_bounds (e : Endianness) :
  0 <= offset (new data e) /\ 0 < Py.len data
  /\ offset (new data e) + Py.len data <= size (new data e).
Proof.
  unfold offset, size, new, Py.len. cbn [_offset _data].
  destruct data; [congruence | cbn [length]; lia].
Qed.

(** X18. A fresh reader over a non-empty buffer hands the whole buffer
    out in one read: [read(BYTES, len(data))] returns [data] itself and
    nothing remains. *)
Theorem read_whole_buffer (e : Endianness) :
  read BYTES (Py.len data) (new data e)
  = (Return (VBytes data), moved (new data e) (Py.len data))
  /\ remaining (snd (read BYTES (Py.len data) (new data e))) = 0.
Proof.
  destruct (whole_buffer_in_bounds e) as (Hoff & Hn & Hrem).
  rewrite read_bytes_in_bounds by assumption.
  cbn [new _data offset _offset snd]. rewrite bytes_at_all.
  split; [reflexivity |].
  unfold remaining, moved, new. cbn [_data _offset]. lia.
Qed.

(** X19. The two byte orders mirror each other: a little-endian read of the
    whole buffer returns what a big-endian read of the reversed buffer
    returns, unsigned and signed alike. *)
Theorem little_reads_reversed_big (data_type : DataType) :
  data_type = UINT \/ data_type = INT ->
  fst (read data_type (Py.len data) (new data LITTLE))
  = fst (read data_type (Py.len (rev data)) (new (rev data) BIG))
  /\ exists v, fst (read data_type (Py.len data) (new data LITTLE))
               = Return (VInt v).
Proof.
  intros Hkind.
  destruct (whole_buffer_in_bounds LITTLE) as (Hoff & Hn & Hrem).
  assert (Hlen : Py.len (rev data) = Py.len data).
  { unfold Py.len. rewrite length_rev. reflexivity. }
  assert (Hoff' : 0 <= offset (new (rev data) BIG)) by (cbn; lia).
  assert (Hrem' : offset (new (rev data) BIG) + Py.len (rev data)
                  <= size (new (rev data) BIG)).
  { unfold offset, size, new. cbn [_offset _data]. lia. }
  assert (Hn' : 0 < Py.len (rev data)) by lia.
  assert (Hval : unsigned_value LITTLE data = unsigned_value BIG (rev data)).
  { cbn [unsigned_value]. rewrite be_value_rev, rev_involutive. reflexivity. }
  destruct Hkind as [-> | ->].
  - rewrite (read_uint_in_bounds _ _ Hoff Hn Hrem).
    rewrite (read_uint_in_bounds _ _ Hoff' Hn' Hrem').
    cbn [new _data _endianness offset _offset fst].
    rewrite !bytes_at_all, Hval. split; [reflexivity | eexists; reflexivity].
  - rewrite (read_int_in_bounds _ _ Hoff Hn Hrem).
    rewrite (read_int_in_bounds _ _ Hoff' Hn' Hrem').
    cbn [new _data _endianness offset _offset fst].
    rewrite !bytes_at_all, Hval, Hlen. split; [reflexivity | eexists; reflexivity].
Qed.

End WholeBuffer.

Lemma read_whole_buffer_witness :
  read BYTES 3 (new [x0a; x0b; x0c] LITTLE)
  = (Return (VBytes [x0a; x0b; x0c]), moved (new [x0a; x0b; x0c] LITTLE) 3).
Proof.
  apply (read_whole_buffer [x0a; x0b; x0c]).
  discriminate.
Defined.

Lemma little_reads_reversed_big_witness :
  fst (read INT 3 (new [x01; x02; xf3] LITTLE))
  = fst (read INT 3 (new [xf3; x02; x01] BIG)).
Proof.
  apply (little_reads_reversed_big [x01; x02; xf3]).
  - discriminate.
  - right. reflexivity.
Defined.

(** X20. One byte reads the same in both byte orders, and a [BOOL] read is
    the test of that number against zero: where [read(UINT, 1)] returns
    [u], a number in [0 .. 255], [read(BOOL, 1)] returns [True] exactly
    when [u] is not 0. *)
Theorem read_bool_tests_uint (self : BinaryReader) :
  0 <= offset self < size self ->
  exists u t,
    fst (read UINT 1 self) = Return (VInt u)
    /\ fst (read UINT 1 (mkReader (_data self) (_offset self) BIG)) = Return (VInt u)
    /\ fst (read UINT 1 (mkReader (_data self) (_offset self) LITTLE)) = Return (VInt u)
    /\ fst (read BOOL 1 self) = Return (VBool t)
    /\ 0 <= u <= 255
    /\ (t = true <-> u <> 0).
Proof.
  intros Hoff.
  destruct (bytes_at_one (_data self) (offset self)) as (b & Hnth & Hone).
  { unfold size in Hoff. exact Hoff. }
  assert (Hone_value : forall e, unsigned_value e [b] = Py.byte_val b).
  { intros []; cbn; lia. }
  assert (Huint : forall e,
             fst (read UINT 1 (mkReader (_data self) (_offset self) e))
             = Return (VInt (Py.byte_val b))).
  { intros e.
    rewrite read_uint_in_bounds
      by (unfold offset, size in *; cbn [_offset _data]; lia).
    cbn [fst _data _endianness offset _offset].
    unfold offset in Hone. rewrite Hone, Hone_value. reflexivity. }
  exists (Py.byte_val b), (negb (Py.byte_val b =? 0)).
  split; [| split; [apply Huint | split; [apply Huint | split; [| split]]]].
  - rewrite <- (Huint (_endianness self)). destruct self; reflexivity.
  - rewrite read_past_guards by (lia || (apply has_bytes_true; lia)).
    cbv zeta. rewrite view_in_bounds by lia.
    rewrite Hone, getitem_0. reflexivity.
  - apply byte_val_range.
  - destruct (Py.byte_val b =? 0) eqn:Hz; cbn [negb].
    + apply Z.eqb_eq in Hz. split; [discriminate | congruence].
    + apply Z.eqb_neq in Hz. split; [intros _; exact Hz | reflexivity].
Qed.

Lemma read_bool_tests_uint_witness :
  exists u t,
    fst (read UINT 1 (moved (new [x00; x80] LITTLE) 1)) = Return (VInt u)
    /\ fst (read BOOL 1 (moved (new [x00; x80] LITTLE) 1)) = Return (VBool t)
    /\ (t = true <-> u <> 0).
Proof.
  destruct (read_bool_tests_uint (moved (new [x00; x80] LITTLE) 1))
    as (u & t & Hu & _ & _ & Ht & _ & Hiff).
  - cbn. lia.
  - exists u, t. split; [exact Hu | split; [exact Ht | exact Hiff]].
Defined.

(** ** Reads from a cursor below zero

    A backward [skip] can leave the offset negative; the slice [read] then
    takes follows Python's rule for negative bounds. *)

Section BelowZero.

Lemma adjust_index_nonneg (i n : Z) : 0 <= n -> 0 <= Py.adjust_index i n.
Proof.
  intros Hn. unfold Py.adjust_index.
  destruct (i <? 0) eqn:Hneg.
  - destruct (i + n <? 0) eqn:Hlow; [lia | apply Z.ltb_ge in Hlow; lia].
  - apply Z.ltb_ge in Hneg. destruct (n <=? i); lia.
Qed.

Lemma adjust_index_from_end (i n : Z) :
  i < 0 -> 0 <= i + n -> Py.adjust_index i n = i + n.
Proof.
  intros Hneg Hlow. unfold Py.adjust_index.
  replace (i <? 0) with true by (symmetry; apply Z.ltb_lt; lia).
  replace (i + n <? 0) with false by (symmetry; apply Z.ltb_ge; lia).
  reflexivity.
Qed.

Lemma adjust_index_zero (n : Z) : 0 <= n -> Py.adjust_index 0 n = 0.
Proof.
  intros Hn. unfold Py.adjust_index. cbn [Z.ltb Z.compare].
  destruct (n <=? 0) eqn:Hle; [apply Z.leb_le in Hle; lia | reflexivity].
Qed.

Lemma slice_up_to_zero {A : Type} (l : list A) (i : Z) : Py.slice l i 0 = [].
Proof.
  unfold Py.slice.
  assert (Hlen : 0 <= Py.len l) by (unfold Py.len; lia).
  rewrite (adjust_index_zero _ Hlen).
  pose proof (adjust_index_nonneg i (Py.len l) Hlen) as Hstart.
  replace (Py.adjust_index i (Py.len l) <? 0) with false
    by (symmetry; apply Z.ltb_ge; exact Hstart).
  reflexivity.
Qed.

Variable self : BinaryReader.
Variable n : Z.
Hypothesis Hn : 0 < n.

(** X21. With the offset below zero, a read that ends below zero takes
    its bytes counted from the end of the buffer: at offset [o], with
    [-size() <= o] and [o + n < 0], [read(BYTES, n)] returns the [n] bytes
    that start at index [size() + o]. *)
Theorem read_below_zero_wraps :
  - size self <= offset self -> offset self + n < 0 ->
  read BYTES n self
  = (Return (VBytes (bytes_at (_data self) (size self + offset self) n)),
     moved self (offset self + n))
  /\ Py.len (bytes_at (_data self) (size self + offset self) n) = n.
Proof.
  intros Hlow Hend.
  assert (Hsize : 0 <= size self) by (unfold size, Py.len; lia).
  rewrite read_past_guards by (exact Hn || (apply has_bytes_true; lia)).
  cbv zeta. split.
  - unfold Py.slice. fold (size self).
    rewrite !adjust_index_from_end by lia.
    replace (offset self + size self <? offset self + n + size self) with true
      by (symmetry; apply Z.ltb_lt; lia).
    unfold bytes_at.
    replace (offset self + n + size self - (offset self + size self)) with n by lia.
    rewrite (Z.add_comm (offset self) (size self)). reflexivity.
  - apply bytes_at_length; unfold size in *; lia.
Qed.

(** X22. With the offset at [-n], a read of [n] bytes finds an empty view
    and still moves the cursor to 0: [BYTES] returns the empty byte string,
    [UINT] and [INT] return 0, and [read(BOOL, 1)] at offset -1 raises
    [IndexError]. *)
Theorem read_ending_at_zero_is_empty :
  offset self = - n ->
  read BYTES n self = (Return (VBytes []), moved self 0)
  /\ read UINT n self = (Return (VInt 0), moved self 0)
  /\ read INT n self = (Return (VInt 0), moved self 0)
  /\ (n = 1 -> read BOOL n self = (Raise IndexError, moved self 0)).
Proof.
  intros Hoff.
  assert (Hsize : 0 <= size self) by (unfold size, Py.len; lia).
  assert (Hhas : has_bytes n self = true) by (apply has_bytes_true; lia).
  assert (Hzero : offset self + n = 0) by lia.
  repeat split; try intros ->;
    rewrite read_past_guards by assumption; cbv zeta;
    rewrite Hzero, slice_up_to_zero; reflexivity.
Qed.

End BelowZero.

Lemma read_below_zero_wraps_witness :
  read BYTES 2 (snd (skip (-3) (new [x0a; x0b; x0c; x0d] BIG)))
  = (Return (VBytes [x0b; x0c]), moved (new [x0a; x0b; x0c; x0d] BIG) (-1)).
Proof.
  apply (read_below_zero_wraps (snd (skip (-3) (new [x0a; x0b; x0c; x0d] BIG))) 2);
    cbn; lia.
Defined.

Lemma read_ending_at_zero_is_empty_witness :
  read BOOL 1 (snd (skip (-1) (new [x0a; x0b] BIG)))
  = (Raise IndexError, new [x0a; x0b] BIG).
Proof.
  destruct (read_ending_at_zero_is_empty (snd (skip (-1) (new [x0a; x0b] BIG))) 1)
    as (_ & _ & _ & Hbool).
  - lia.
  - reflexivity.
  - apply Hbool. reflexivity.
Defined.

(** ** Random access *)

(** X25. [seek] makes a read independent of where the cursor was: for
    [0 <= k], [0 < n] and [k + n <= size()], [seek(k)] then
    [read(BYTES, n)] returns the bytes at indices [k .. k + n - 1] and
    leaves the offset at [k + n], from any earlier offset at all. *)
Theorem seek_then_read_bytes (self : BinaryReader) (k n : Z) :
  0 <= k -> 0 < n -> k + n <= size self ->
  seek k self = (Return tt, moved self k)
  /\ read BYTES n (snd (seek k self))
     = (Return (VBytes (bytes_at (_data self) k n)), moved self (k + n))
  /\ Py.len (bytes_at (_data self) k n) = n.
Proof.
  intros Hk Hn Hend.
  assert (Hseek : seek k self = (Return tt, moved self k)).
  { rewrite seek_cases.
    replace ((0 <=? k) && (k <=? size self)) with true; [reflexivity |].
    symmetry. apply andb_true_iff. split; apply Z.leb_le; lia. }
  rewrite Hseek. cbn [snd]. split; [reflexivity | split].
  - rewrite (read_bytes_in_bounds (moved self k) n Hk Hn Hend). reflexivity.
  - apply bytes_at_length; unfold size in *; lia.
Qed.

Lemma seek_then_read_bytes_witness :
  read BYTES 2 (snd (seek 1 (moved (new [x0a; x0b; x0c; x0d] BIG) (-9))))
  = (Return (VBytes [x0b; x0c]), moved (new [x0a; x0b; x0c; x0d] BIG) 3).
Proof.
  destruct (seek_then_read_bytes (moved (new [x0a; x0b; x0c; x0d] BIG) (-9)) 1 2)
    as (_ & Hread & _).
  - lia.
  - lia.
  - cbn. lia.
  - exact Hread.
Defined.

(** * The command line *)

Module CliFacts.

Import Ascii String.
Import Cli.
Local Open Scope string_scope.

Lemma append_empty_r (s : string) : s ++ EmptyString = s.
Proof. induction s as [| c s IH]; cbn; [reflexivity | rewrite IH; reflexivity]. Qed.

Lemma append_assoc (s1 s2 s3 : string) : (s1 ++ s2) ++ s3 = s1 ++ (s2 ++ s3).
Proof. induction s1 as [| c s1 IH]; cbn; [reflexivity | rewrite IH; reflexivity]. Qed.

(** A text that starts with a line free of newlines, then a newline. *)
Lemma lines_from_line (d : string) :
  forall cur rest,
    has_newline d = false ->
    lines_from cur (d ++ newline ++ rest) = (cur ++ d) :: lines_from EmptyString rest.
Proof.
  induction d as [| c d IH]; intros cur rest Hfree.
  - cbn. rewrite append_empty_r. reflexivity.
  - cbn [has_newline] in Hfree. apply orb_false_iff in Hfree.
    destruct Hfree as [Hc Hd].
    cbn [append lines_from]. rewrite Hc, (IH _ _ Hd), append_assoc.
    reflexivity.
Qed.

Lemma lines_of_written_domains (ds : list string) :
  Forall (fun d => has_newline d = false) ds ->
  lines (stdout_text (List.app (List.map (fun d => write (d ++ newline)) ds) [flush]))
  = ds.
Proof.
  unfold lines. induction ds as [| d ds IH]; intros Hfree.
  - reflexivity.
  - inversion Hfree as [| d' ds' Hd Hds]; subst.
    cbn [List.map List.app stdout_text].
    rewrite append_assoc, (lines_from_line d _ _ Hd). cbn [append].
    rewrite (IH Hds). reflexivity.
Qed.

Section ProcessCertificate.

Variable Entry : Type.
Variable domains : Entry -> list string.
Variable log_url : Entry -> string.
Variable dumps_domains : list string -> string.
Variable dumps_entry : Entry -> string.
Variable iso_time : Entry -> string.

Local Abbreviation process args entry :=
  (process_certificate Entry domains log_url dumps_domains dumps_entry iso_time
     args entry).

(** X23. With [--domains-only] and without [--json], an entry prints one
    domain per line, in order: as long as no domain holds a newline, the
    lines of what was written are exactly the entry's domains.  An entry
    without domains writes nothing. *)
Theorem domains_only_prints_lines (args : Namespace) (entry : Entry) :
  domains_only args = true -> json args = false ->
  Forall (fun d => has_newline d = false) (domains entry) ->
  lines (stdout_text (process args entry)) = domains entry
  /\ writes (process args entry) = List.length (domains entry).
Proof.
  intros Hdomains Hjson Hfree.
  unfold process_certificate. rewrite Hdomains, Hjson. split.
  - apply lines_of_written_domains. exact Hfree.
  - unfold writes. rewrite List.filter_app. cbn [List.filter List.app].
    rewrite List.app_nil_r.
    induction (domains entry) as [| d ds IH]; [reflexivity |].
    inversion Hfree; subst. cbn [List.map List.filter List.length].
    rewrite IH by assumption. reflexivity.
Qed.


End ProcessCertificate.

Lemma domains_only_prints_lines_witness :
  lines (stdout_text
           (process_certificate (list string) (fun e => e)
              (fun _ => EmptyString) (fun _ => EmptyString)
              (fun _ => EmptyString) (fun _ => EmptyString)
              (mkNamespace true false false)
              ["a.example"; "b.example"]))
  = ["a.example"; "b.example"].
Proof.
  apply (domains_only_prints_lines (list string) (fun e => e)
           (fun _ => EmptyString) (fun _ => EmptyString)
           (fun _ => EmptyString) (fun _ => EmptyString)
           (mkNamespace true false false) ["a.example"; "b.example"]).
  - reflexivity.
  - reflexivity.
  - repeat constructor.
Defined.


End CliFacts.
